(** * compass-ui: request authorizer and solution-detail feed controller

    A shallow embedding of two pieces of the Angular front-end:

    - [AuthInterceptor] (core/interceptors/auth.interceptor.ts), which decides
      whether an outgoing request gets an [Authorization: Bearer <token>]
      header;
    - [SolutionDetailComponent] (features/solution-detail), which pages
      through official comments, user comments and ratings of one solution
      and submits new comments and ratings.

    Strings are sequences of code units restricted to the Latin-1 range
    (one [ascii] per code unit).  JavaScript numbers that the code only ever
    uses as integers are [Z]. *)

From Stdlib Require Import ZArith Lia Ascii.
From stdpp Require Import base option list strings gmap.

Local Open Scope Z_scope.

(** ** JavaScript string operations used by the sources *)

Module JsString.

Definition code (c : ascii) : N := N_of_ascii c.

(** WhiteSpace and LineTerminator code points below 256, the ones
    [String.prototype.trim] strips: TAB, LF, VT, FF, CR, SP, NBSP. *)
Definition isWhiteSpace (c : ascii) : bool :=
  let n := code c in
  ((9 <=? n) && (n <=? 13) || (n =? 32) || (n =? 160))%N.

(** Upper-case letters below 256: A-Z and the Latin-1 capitals
    (U+00C0..U+00DE except the multiplication sign U+00D7). *)
Definition isUpper (c : ascii) : bool :=
  let n := code c in
  ((65 <=? n) && (n <=? 90)
   || (192 <=? n) && (n <=? 222) && negb (n =? 215))%N.

Definition toLowerChar (c : ascii) : ascii :=
  if isUpper c then ascii_of_N (code c + 32) else c.

Fixpoint toLowerCase (s : string) : string :=
  match s with
  | EmptyString => EmptyString
  | String c s' => String (toLowerChar c) (toLowerCase s')
  end.

(** [s.startsWith(p)] *)
Fixpoint startsWith (s p : string) {struct p} : bool :=
  match p, s with
  | EmptyString, _ => true
  | String _ _, EmptyString => false
  | String a p', String b s' => if Ascii.eqb a b then startsWith s' p' else false
  end.

(** [s.includes(sub)]: [sub] occurs at some position of [s]. *)
Fixpoint includes (s sub : string) : bool :=
  if startsWith s sub then true
  else match s with
       | EmptyString => false
       | String _ s' => includes s' sub
       end.

Fixpoint trimStart (s : string) : string :=
  match s with
  | EmptyString => EmptyString
  | String c s' => if isWhiteSpace c then trimStart s' else s
  end.

Fixpoint trimEnd (s : string) : string :=
  match s with
  | EmptyString => EmptyString
  | String c s' =>
      match trimEnd s' with
      | EmptyString => if isWhiteSpace c then EmptyString else String c EmptyString
      | r => String c r
      end
  end.

(** [s.trim()] *)
Definition trim (s : string) : string := trimEnd (trimStart s).

(** Truthiness of a string value: only the empty string is falsy. *)
Definition truthy (s : string) : bool :=
  match s with
  | EmptyString => false
  | String _ _ => true
  end.

(** Spec-side vocabulary, independent of the functions above. *)

Definition starts_with (s p : string) : Prop := exists rest, s = p +:+ rest.

Definition contains (s sub : string) : Prop :=
  exists before after, s = before +:+ sub +:+ after.

Fixpoint whitespace_only (s : string) : Prop :=
  match s with
  | EmptyString => True
  | String c s' => isWhiteSpace c = true /\ whitespace_only s'
  end.

(** All spellings of a lower-case ASCII word that differ from it only in
    the case of its letters: for ["put"] these are put, Put, pUt, ... *)
Definition upperOf (c : ascii) : ascii := ascii_of_N (code c - 32).

Fixpoint case_variants (w : string) : list string :=
  match w with
  | EmptyString => [EmptyString]
  | String c w' =>
      let rest := case_variants w' in
      (String c <$> rest) ++ (String (upperOf c) <$> rest)
  end.

Definition equals_ignoring_case (s w : string) : Prop := s ∈ case_variants w.

Definition lowerLetters : list ascii :=
  Eval cbv in String.list_ascii_of_string "abcdefghijklmnopqrstuvwxyz".

Fixpoint lower_word (w : string) : Prop :=
  match w with
  | EmptyString => True
  | String d w' => In d lowerLetters /\ lower_word w'
  end.

(** Every code unit, and the check that decides the case lemma on them. *)
Definition all_ascii : list ascii := List.map ascii_of_nat (seq 0 256).

Definition letter_case_check (d c : ascii) : bool :=
  Bool.eqb (Ascii.eqb (toLowerChar c) d)
           (Ascii.eqb c d || Ascii.eqb c (upperOf d)).

End JsString.

(** ** HTTP headers

    [HttpHeaders] belongs to [@angular/common/http], not to this
    repository; the interceptor reaches it through [request.clone].  It is
    modelled after the class: header names are matched without regard to
    letter case; the values of a header are kept under the lower-cased
    name, together with the spelling under which the name was first given,
    which is the one the header is sent under; [set] replaces the values of
    a header by the one given and keeps an earlier spelling. *)

Module Http.
Import JsString.

(** The values of each header and the spelling of its name, under the
    lower-cased name. *)
Abbreviation HttpHeaders := (gmap string (string * list string)).

(** [headers.getAll(name)]; [None] is [null]. *)
Definition getAll (headers : HttpHeaders) (name : string)
  : option (list string) :=
  snd <$> headers !! toLowerCase name.

(** [headers.get(name)]: the first value. *)
Definition get (headers : HttpHeaders) (name : string) : option string :=
  match getAll headers name with
  | Some (value :: _) => Some value
  | _ => None
  end.

(** The spelling the header is sent under. *)
Definition normalizedName (headers : HttpHeaders) (name : string)
  : option string :=
  fst <$> headers !! toLowerCase name.

(** [headers.set(name, value)]. *)
Definition set (headers : HttpHeaders) (name value : string) : HttpHeaders :=
  <[toLowerCase name :=
      (default name (normalizedName headers name), [value])]> headers.

End Http.

(** ** The request authorizer (core/interceptors/auth.interceptor.ts) *)

Module AuthInterceptor.
Import JsString.

Section WithEnvironment.

(** [environment.apiUrl]; the environment file is not among the sources. *)
Variable apiUrl : string.

(** The request body is opaque to the interceptor. *)
Variable Body : Type.

Record HttpRequest := {
  url : string;
  method : string;
  headers : Http.HttpHeaders;
  body : Body;
}.

(** [request.clone({ setHeaders: { name: value } })]: a new descriptor
    whose headers are [request.headers.set(name, value)], everything else
    shared with the original. *)
Definition clone_setHeader (request : HttpRequest) (name value : string) : HttpRequest :=
  {| url := url request;
     method := method request;
     headers := Http.set (headers request) name value;
     body := body request |}.

Definition tokenKey : string := "auth_token".

(** [localStorage.getItem(this.tokenKey)]: [None] is JavaScript's [null]. *)
Definition getAuthToken (localStorage : gmap string string) : option string :=
  localStorage !! tokenKey.

Definition shouldAddToken (request : HttpRequest) : bool :=
  let url := url request in
  let method := toLowerCase (method request) in
  if String.eqb url (apiUrl +:+ "/users/me") || includes url "/solutions/my/" then true
  else if startsWith url apiUrl
          && (String.eqb method "post" || String.eqb method "put") then true
  else false.

(** [intercept] hands a request to [next.handle]; the model returns that
    request. *)
Definition intercept (localStorage : gmap string string) (request : HttpRequest)
  : HttpRequest :=
  if shouldAddToken request then
    match getAuthToken localStorage with
    | Some token =>
        if truthy token
        then clone_setHeader request "Authorization" ("Bearer " +:+ token)
        else request
    | None => request
    end
  else request.

(** The routing rules in the words of the specification. *)
Definition routing_rule (request : HttpRequest) : Prop :=
  url request = apiUrl +:+ "/users/me"
  \/ contains (url request) "/solutions/my/"
  \/ (starts_with (url request) apiUrl
      /\ (equals_ignoring_case (method request) "post"
          \/ equals_ignoring_case (method request) "put")).

(** "The header is attached": what is forwarded is the request with the
    bearer header of the stored token set. *)
Definition header_attached (localStorage : gmap string string)
    (request : HttpRequest) : Prop :=
  exists token, localStorage !! tokenKey = Some token
    /\ intercept localStorage request
       = clone_setHeader request "Authorization" ("Bearer " +:+ token).

Definition forwarded_unmodified (localStorage : gmap string string)
    (request : HttpRequest) : Prop :=
  intercept localStorage request = request.

(** "A token is stored", read literally (any value under the key) and as
    the guard [if (token)] reads it (a value that is not the empty string). *)
Definition token_stored (localStorage : gmap string string) : Prop :=
  is_Some (localStorage !! tokenKey).

Definition nonempty_token_stored (localStorage : gmap string string) : Prop :=
  exists token, localStorage !! tokenKey = Some token /\ token <> "".

(** The authorization rule, parametric in the reading of "a token is
    stored": attached in the listed cases, forwarded unmodified otherwise. *)
Definition authorization_rule (stored : gmap string string -> Prop)
    (localStorage : gmap string string) (request : HttpRequest) : Prop :=
  (stored localStorage /\ routing_rule request
     -> header_attached localStorage request)
  /\ (~ (stored localStorage /\ routing_rule request)
       -> forwarded_unmodified localStorage request).

End WithEnvironment.

Arguments url {Body} _.
Arguments method {Body} _.
Arguments headers {Body} _.
Arguments body {Body} _.
Arguments clone_setHeader {Body} _ _ _.
Arguments shouldAddToken apiUrl {Body} _.
Arguments intercept apiUrl {Body} _ _.
Arguments routing_rule apiUrl {Body} _.
Arguments header_attached apiUrl {Body} _ _.
Arguments forwarded_unmodified apiUrl {Body} _ _.
Arguments authorization_rule apiUrl {Body} _ _ _.

(** An example request: posting a comment, with the API under [/api]. *)
Definition postComment : HttpRequest unit :=
  {| url := "/api/solutions/kafka/comments"; method := "POST";
     headers := ∅; body := tt |}.

(** Requests for the examples of the rules' edges. *)
Definition foreignMySolutions : HttpRequest unit :=
  {| url := "https://elsewhere.example/solutions/my/drafts"; method := "GET";
     headers := ∅; body := tt |}.

Definition currentUserWithQuery : HttpRequest unit :=
  {| url := "/api/users/me?fields=name"; method := "GET";
     headers := ∅; body := tt |}.

(** A comment posted by a caller that has set its own credentials, under a
    lower-case header name, and a trace header. *)
Definition callerAuthorized : HttpRequest unit :=
  {| url := "/api/solutions/kafka/comments"; method := "POST";
     headers :=
       Http.set (Http.set ∅ "authorization" "Basic dXNlcg==") "X-Trace" "7";
     body := tt |}.

End AuthInterceptor.

(** ** The solution-detail page component *)

Module SolutionDetail.
Import JsString.

(** What [messageService.add] receives. *)
Record Message := {
  severity : string;
  summary : string;
  detail : string;
}.

(** What [dialogService.open] receives besides the dialog component, which
    is always [LoginDialogComponent]. *)
Record Dialog := {
  header : string;
  width : string;
}.

Inductive CommentType := OFFICIAL | USER.

(** Modelled from the spec: CommentService and RatingService
    (core/services) are not among the sources.  Following the list of
    external interfaces, each of their methods returns a cold observable
    that issues one HTTP request when it is subscribed and then delivers
    one response or one error.  A request is recorded by the call that
    produced it; [HttpGet] is the component's own [http.get]. *)
Inductive Request :=
| HttpGet (url : string)
| GetSolutionComments (slug : string) (skip limit : Z) (type : CommentType)
| AddComment (slug content : string)
| GetSolutionRatings (slug : string) (skip limit : Z)
| AddRating (slug : string) (score : Z) (comment : string).

(** The observer a request was subscribed with: which pair of [next] and
    [error] callbacks, and which [finalize] callback, belong to it. *)
Inductive Handler :=
| OnSolution
| OnOfficialComments
| OnUserComments
| OnRatings
| OnCommentAdded (slug : string)
| OnRatingAdded (slug : string).

(** A subscription that has neither completed nor been unsubscribed.
    [untilDestroy] records that the pipe ends in [takeUntil(this.destroy$)]. *)
Record Subscription := {
  subscriptionId : nat;
  request : Request;
  handler : Handler;
  untilDestroy : bool;
}.

(** [HttpErrorResponse]: the status and [error.error?.detail]. *)
Record HttpErrorResponse := {
  status : Z;
  errorDetail : option string;
}.

Record NewRating := {
  score : Z;
  comment : string;
}.

(** *** Invariants of the reachable worlds *)

Definition isRatingsFetch (s : Subscription) : bool :=
  match handler s with
  | OnRatings => true
  | _ => false
  end.

(** The live subscriptions are in order: identifiers are distinct and
    older than the next one to be handed out, no ratings fetch is piped
    through [takeUntil], and there is one ratings fetch when [flag] (the
    component's [loadingRatings]) is set and none when it is not. *)
Definition subscriptions_ok (subs : list Subscription) (next : nat)
    (flag : bool) : Prop :=
  NoDup (List.map subscriptionId subs)
  /\ (forall s, In s subs -> (subscriptionId s < next)%nat)
  /\ (forall s, In s subs -> isRatingsFetch s = true -> untilDestroy s = false)
  /\ length (List.filter isRatingsFetch subs) = if flag then 1%nat else 0%nat.

(** A request for a page of a feed asks for 10 items from an offset that
    is a multiple of 10 and not negative; official comments are asked for
    from offset 0. *)
Definition page_request_ok (r : Request) : Prop :=
  match r with
  | GetSolutionComments _ skip limit OFFICIAL => skip = 0 /\ limit = 10
  | GetSolutionComments _ skip limit USER
  | GetSolutionRatings _ skip limit =>
      limit = 10 /\ exists page, 0 <= page /\ skip = page * 10
  | _ => True
  end.

Section WithPayloads.

(** [environment.apiUrl]. *)
Variable apiUrl : string.

(** Payloads of the API, opaque to the component. *)
Context {Solution Comment Rating : Type}.

Inductive Response :=
| SolutionResponse (success : bool) (data : Solution)
| CommentsResponse (success : bool) (data : list Comment) (total : Z)
| RatingsResponse (success : bool) (data : list Rating) (total : Z)
| SubmitResponse (success : bool).

Inductive Notification :=
| Next (response : Response)
| Error (error : HttpErrorResponse).

(** The fields of the component.  A [BehaviorSubject] is the value it
    currently holds; [destroyStopped] is whether [destroy$] has completed. *)
Record Component := {
  destroyStopped : bool;
  userCommentsPage : Z;
  ratingsPage : Z;
  solution : option Solution;
  officialComments : list Comment;
  userComments : list Comment;
  ratings : list Rating;
  loading : bool;
  loadingOfficialComments : bool;
  loadingUserComments : bool;
  loadingRatings : bool;
  hasMoreUserComments : bool;
  hasMoreRatings : bool;
  totalOfficialComments : Z;
  totalUserComments : Z;
  totalRatings : Z;
  activeTab : Z;
  newComment : string;
  newRating : NewRating;
  isLoggedIn : bool;
}.

Definition set_destroyStopped (v : bool) (c : Component) : Component :=
  {| destroyStopped := v;
     userCommentsPage := userCommentsPage c;
     ratingsPage := ratingsPage c;
     solution := solution c;
     officialComments := officialComments c;
     userComments := userComments c;
     ratings := ratings c;
     loading := loading c;
     loadingOfficialComments := loadingOfficialComments c;
     loadingUserComments := loadingUserComments c;
     loadingRatings := loadingRatings c;
     hasMoreUserComments := hasMoreUserComments c;
     hasMoreRatings := hasMoreRatings c;
     totalOfficialComments := totalOfficialComments c;
     totalUserComments := totalUserComments c;
     totalRatings := totalRatings c;
     activeTab := activeTab c;
     newComment := newComment c;
     newRating := newRating c;
     isLoggedIn := isLoggedIn c |}.

Definition set_userCommentsPage (v : Z) (c : Component) : Component :=
  {| destroyStopped := destroyStopped c;
     userCommentsPage := v;
     ratingsPage := ratingsPage c;
     solution := solution c;
     officialComments := officialComments c;
     userComments := userComments c;
     ratings := ratings c;
     loading := loading c;
     loadingOfficialComments := loadingOfficialComments c;
     loadingUserComments := loadingUserComments c;
     loadingRatings := loadingRatings c;
     hasMoreUserComments := hasMoreUserComments c;
     hasMoreRatings := hasMoreRatings c;
     totalOfficialComments := totalOfficialComments c;
     totalUserComments := totalUserComments c;
     totalRatings := totalRatings c;
     activeTab := activeTab c;
     newComment := newComment c;
     newRating := newRating c;
     isLoggedIn := isLoggedIn c |}.

Definition set_ratingsPage (v : Z) (c : Component) : Component :=
  {| destroyStopped := destroyStopped c;
     userCommentsPage := userCommentsPage c;
     ratingsPage := v;
     solution := solution c;
     officialComments := officialComments c;
     userComments := userComments c;
     ratings := ratings c;
     loading := loading c;
     loadingOfficialComments := loadingOfficialComments c;
     loadingUserComments := loadingUserComments c;
     loadingRatings := loadingRatings c;
     hasMoreUserComments := hasMoreUserComments c;
     hasMoreRatings := hasMoreRatings c;
     totalOfficialComments := totalOfficialComments c;
     totalUserComments := totalUserComments c;
     totalRatings := totalRatings c;
     activeTab := activeTab c;
     newComment := newComment c;
     newRating := newRating c;
     isLoggedIn := isLoggedIn c |}.

Definition set_solution (v : option Solution) (c : Component) : Component :=
  {| destroyStopped := destroyStopped c;
     userCommentsPage := userCommentsPage c;
     ratingsPage := ratingsPage c;
     solution := v;
     officialComments := officialComments c;
     userComments := userComments c;
     ratings := ratings c;
     loading := loading c;
     loadingOfficialComments := loadingOfficialComments c;
     loadingUserComments := loadingUserComments c;
     loadingRatings := loadingRatings c;
     hasMoreUserComments := hasMoreUserComments c;
     hasMoreRatings := hasMoreRatings c;
     totalOfficialComments := totalOfficialComments c;
     totalUserComments := totalUserComments c;
     totalRatings := totalRatings c;
     activeTab := activeTab c;
     newComment := newComment c;
     newRating := newRating c;
     isLoggedIn := isLoggedIn c |}.

Definition set_officialComments (v : list Comment) (c : Component) : Component :=
  {| destroyStopped := destroyStopped c;
     userCommentsPage := userCommentsPage c;
     ratingsPage := ratingsPage c;
     solution := solution c;
     officialComments := v;
     userComments := userComments c;
     ratings := ratings c;
     loading := loading c;
     loadingOfficialComments := loadingOfficialComments c;
     loadingUserComments := loadingUserComments c;
     loadingRatings := loadingRatings c;
     hasMoreUserComments := hasMoreUserComments c;
     hasMoreRatings := hasMoreRatings c;
     totalOfficialComments := totalOfficialComments c;
     totalUserComments := totalUserComments c;
     totalRatings := totalRatings c;
     activeTab := activeTab c;
     newComment := newComment c;
     newRating := newRating c;
     isLoggedIn := isLoggedIn c |}.

Definition set_userComments (v : list Comment) (c : Component) : Component :=
  {| destroyStopped := destroyStopped c;
     userCommentsPage := userCommentsPage c;
     ratingsPage := ratingsPage c;
     solution := solution c;
     officialComments := officialComments c;
     userComments := v;
     ratings := ratings c;
     loading := loading c;
     loadingOfficialComments := loadingOfficialComments c;
     loadingUserComments := loadingUserComments c;
     loadingRatings := loadingRatings c;
     hasMoreUserComments := hasMoreUserComments c;
     hasMoreRatings := hasMoreRatings c;
     totalOfficialComments := totalOfficialComments c;
     totalUserComments := totalUserComments c;
     totalRatings := totalRatings c;
     activeTab := activeTab c;
     newComment := newComment c;
     newRating := newRating c;
     isLoggedIn := isLoggedIn c |}.

Definition set_ratings (v : list Rating) (c : Component) : Component :=
  {| destroyStopped := destroyStopped c;
     userCommentsPage := userCommentsPage c;
     ratingsPage := ratingsPage c;
     solution := solution c;
     officialComments := officialComments c;
     userComments := userComments c;
     ratings := v;
     loading := loading c;
     loadingOfficialComments := loadingOfficialComments c;
     loadingUserComments := loadingUserComments c;
     loadingRatings := loadingRatings c;
     hasMoreUserComments := hasMoreUserComments c;
     hasMoreRatings := hasMoreRatings c;
     totalOfficialComments := totalOfficialComments c;
     totalUserComments := totalUserComments c;
     totalRatings := totalRatings c;
     activeTab := activeTab c;
     newComment := newComment c;
     newRating := newRating c;
     isLoggedIn := isLoggedIn c |}.

Definition set_loading (v : bool) (c : Component) : Component :=
  {| destroyStopped := destroyStopped c;
     userCommentsPage := userCommentsPage c;
     ratingsPage := ratingsPage c;
     solution := solution c;
     officialComments := officialComments c;
     userComments := userComments c;
     ratings := ratings c;
     loading := v;
     loadingOfficialComments := loadingOfficialComments c;
     loadingUserComments := loadingUserComments c;
     loadingRatings := loadingRatings c;
     hasMoreUserComments := hasMoreUserComments c;
     hasMoreRatings := hasMoreRatings c;
     totalOfficialComments := totalOfficialComments c;
     totalUserComments := totalUserComments c;
     totalRatings := totalRatings c;
     activeTab := activeTab c;
     newComment := newComment c;
     newRating := newRating c;
     isLoggedIn := isLoggedIn c |}.

Definition set_loadingOfficialComments (v : bool) (c : Component) : Component :=
  {| destroyStopped := destroyStopped c;
     userCommentsPage := userCommentsPage c;
     ratingsPage := ratingsPage c;
     solution := solution c;
     officialComments := officialComments c;
     userComments := userComments c;
     ratings := ratings c;
     loading := loading c;
     loadingOfficialComments := v;
     loadingUserComments := loadingUserComments c;
     loadingRatings := loadingRatings c;
     hasMoreUserComments := hasMoreUserComments c;
     hasMoreRatings := hasMoreRatings c;
     totalOfficialComments := totalOfficialComments c;
     totalUserComments := totalUserComments c;
     totalRatings := totalRatings c;
     activeTab := activeTab c;
     newComment := newComment c;
     newRating := newRating c;
     isLoggedIn := isLoggedIn c |}.

Definition set_loadingUserComments (v : bool) (c : Component) : Component :=
  {| destroyStopped := destroyStopped c;
     userCommentsPage := userCommentsPage c;
     ratingsPage := ratingsPage c;
     solution := solution c;
     officialComments := officialComments c;
     userComments := userComments c;
     ratings := ratings c;
     loading := loading c;
     loadingOfficialComments := loadingOfficialComments c;
     loadingUserComments := v;
     loadingRatings := loadingRatings c;
     hasMoreUserComments := hasMoreUserComments c;
     hasMoreRatings := hasMoreRatings c;
     totalOfficialComments := totalOfficialComments c;
     totalUserComments := totalUserComments c;
     totalRatings := totalRatings c;
     activeTab := activeTab c;
     newComment := newComment c;
     newRating := newRating c;
     isLoggedIn := isLoggedIn c |}.

Definition set_loadingRatings (v : bool) (c : Component) : Component :=
  {| destroyStopped := destroyStopped c;
     userCommentsPage := userCommentsPage c;
     ratingsPage := ratingsPage c;
     solution := solution c;
     officialComments := officialComments c;
     userComments := userComments c;
     ratings := ratings c;
     loading := loading c;
     loadingOfficialComments := loadingOfficialComments c;
     loadingUserComments := loadingUserComments c;
     loadingRatings := v;
     hasMoreUserComments := hasMoreUserComments c;
     hasMoreRatings := hasMoreRatings c;
     totalOfficialComments := totalOfficialComments c;
     totalUserComments := totalUserComments c;
     totalRatings := totalRatings c;
     activeTab := activeTab c;
     newComment := newComment c;
     newRating := newRating c;
     isLoggedIn := isLoggedIn c |}.

Definition set_hasMoreUserComments (v : bool) (c : Component) : Component :=
  {| destroyStopped := destroyStopped c;
     userCommentsPage := userCommentsPage c;
     ratingsPage := ratingsPage c;
     solution := solution c;
     officialComments := officialComments c;
     userComments := userComments c;
     ratings := ratings c;
     loading := loading c;
     loadingOfficialComments := loadingOfficialComments c;
     loadingUserComments := loadingUserComments c;
     loadingRatings := loadingRatings c;
     hasMoreUserComments := v;
     hasMoreRatings := hasMoreRatings c;
     totalOfficialComments := totalOfficialComments c;
     totalUserComments := totalUserComments c;
     totalRatings := totalRatings c;
     activeTab := activeTab c;
     newComment := newComment c;
     newRating := newRating c;
     isLoggedIn := isLoggedIn c |}.

Definition set_hasMoreRatings (v : bool) (c : Component) : Component :=
  {| destroyStopped := destroyStopped c;
     userCommentsPage := userCommentsPage c;
     ratingsPage := ratingsPage c;
     solution := solution c;
     officialComments := officialComments c;
     userComments := userComments c;
     ratings := ratings c;
     loading := loading c;
     loadingOfficialComments := loadingOfficialComments c;
     loadingUserComments := loadingUserComments c;
     loadingRatings := loadingRatings c;
     hasMoreUserComments := hasMoreUserComments c;
     hasMoreRatings := v;
     totalOfficialComments := totalOfficialComments c;
     totalUserComments := totalUserComments c;
     totalRatings := totalRatings c;
     activeTab := activeTab c;
     newComment := newComment c;
     newRating := newRating c;
     isLoggedIn := isLoggedIn c |}.

Definition set_totalOfficialComments (v : Z) (c : Component) : Component :=
  {| destroyStopped := destroyStopped c;
     userCommentsPage := userCommentsPage c;
     ratingsPage := ratingsPage c;
     solution := solution c;
     officialComments := officialComments c;
     userComments := userComments c;
     ratings := ratings c;
     loading := loading c;
     loadingOfficialComments := loadingOfficialComments c;
     loadingUserComments := loadingUserComments c;
     loadingRatings := loadingRatings c;
     hasMoreUserComments := hasMoreUserComments c;
     hasMoreRatings := hasMoreRatings c;
     totalOfficialComments := v;
     totalUserComments := totalUserComments c;
     totalRatings := totalRatings c;
     activeTab := activeTab c;
     newComment := newComment c;
     newRating := newRating c;
     isLoggedIn := isLoggedIn c |}.

Definition set_totalUserComments (v : Z) (c : Component) : Component :=
  {| destroyStopped := destroyStopped c;
     userCommentsPage := userCommentsPage c;
     ratingsPage := ratingsPage c;
     solution := solution c;
     officialComments := officialComments c;
     userComments := userComments c;
     ratings := ratings c;
     loading := loading c;
     loadingOfficialComments := loadingOfficialComments c;
     loadingUserComments := loadingUserComments c;
     loadingRatings := loadingRatings c;
     hasMoreUserComments := hasMoreUserComments c;
     hasMoreRatings := hasMoreRatings c;
     totalOfficialComments := totalOfficialComments c;
     totalUserComments := v;
     totalRatings := totalRatings c;
     activeTab := activeTab c;
     newComment := newComment c;
     newRating := newRating c;
     isLoggedIn := isLoggedIn c |}.

Definition set_totalRatings (v : Z) (c : Component) : Component :=
  {| destroyStopped := destroyStopped c;
     userCommentsPage := userCommentsPage c;
     ratingsPage := ratingsPage c;
     solution := solution c;
     officialComments := officialComments c;
     userComments := userComments c;
     ratings := ratings c;
     loading := loading c;
     loadingOfficialComments := loadingOfficialComments c;
     loadingUserComments := loadingUserComments c;
     loadingRatings := loadingRatings c;
     hasMoreUserComments := hasMoreUserComments c;
     hasMoreRatings := hasMoreRatings c;
     totalOfficialComments := totalOfficialComments c;
     totalUserComments := totalUserComments c;
     totalRatings := v;
     activeTab := activeTab c;
     newComment := newComment c;
     newRating := newRating c;
     isLoggedIn := isLoggedIn c |}.

Definition set_activeTab (v : Z) (c : Component) : Component :=
  {| destroyStopped := destroyStopped c;
     userCommentsPage := userCommentsPage c;
     ratingsPage := ratingsPage c;
     solution := solution c;
     officialComments := officialComments c;
     userComments := userComments c;
     ratings := ratings c;
     loading := loading c;
     loadingOfficialComments := loadingOfficialComments c;
     loadingUserComments := loadingUserComments c;
     loadingRatings := loadingRatings c;
     hasMoreUserComments := hasMoreUserComments c;
     hasMoreRatings := hasMoreRatings c;
     totalOfficialComments := totalOfficialComments c;
     totalUserComments := totalUserComments c;
     totalRatings := totalRatings c;
     activeTab := v;
     newComment := newComment c;
     newRating := newRating c;
     isLoggedIn := isLoggedIn c |}.

Definition set_newComment (v : string) (c : Component) : Component :=
  {| destroyStopped := destroyStopped c;
     userCommentsPage := userCommentsPage c;
     ratingsPage := ratingsPage c;
     solution := solution c;
     officialComments := officialComments c;
     userComments := userComments c;
     ratings := ratings c;
     loading := loading c;
     loadingOfficialComments := loadingOfficialComments c;
     loadingUserComments := loadingUserComments c;
     loadingRatings := loadingRatings c;
     hasMoreUserComments := hasMoreUserComments c;
     hasMoreRatings := hasMoreRatings c;
     totalOfficialComments := totalOfficialComments c;
     totalUserComments := totalUserComments c;
     totalRatings := totalRatings c;
     activeTab := activeTab c;
     newComment := v;
     newRating := newRating c;
     isLoggedIn := isLoggedIn c |}.

Definition set_newRating (v : NewRating) (c : Component) : Component :=
  {| destroyStopped := destroyStopped c;
     userCommentsPage := userCommentsPage c;
     ratingsPage := ratingsPage c;
     solution := solution c;
     officialComments := officialComments c;
     userComments := userComments c;
     ratings := ratings c;
     loading := loading c;
     loadingOfficialComments := loadingOfficialComments c;
     loadingUserComments := loadingUserComments c;
     loadingRatings := loadingRatings c;
     hasMoreUserComments := hasMoreUserComments c;
     hasMoreRatings := hasMoreRatings c;
     totalOfficialComments := totalOfficialComments c;
     totalUserComments := totalUserComments c;
     totalRatings := totalRatings c;
     activeTab := activeTab c;
     newComment := newComment c;
     newRating := v;
     isLoggedIn := isLoggedIn c |}.

Definition set_isLoggedIn (v : bool) (c : Component) : Component :=
  {| destroyStopped := destroyStopped c;
     userCommentsPage := userCommentsPage c;
     ratingsPage := ratingsPage c;
     solution := solution c;
     officialComments := officialComments c;
     userComments := userComments c;
     ratings := ratings c;
     loading := loading c;
     loadingOfficialComments := loadingOfficialComments c;
     loadingUserComments := loadingUserComments c;
     loadingRatings := loadingRatings c;
     hasMoreUserComments := hasMoreUserComments c;
     hasMoreRatings := hasMoreRatings c;
     totalOfficialComments := totalOfficialComments c;
     totalUserComments := totalUserComments c;
     totalRatings := totalRatings c;
     activeTab := activeTab c;
     newComment := newComment c;
     newRating := newRating c;
     isLoggedIn := v |}.

(** The component together with the collaborators it talks to: the toasts
    and dialogs it has opened, every request it has issued, and the
    subscriptions still alive. *)
Record World := {
  this : Component;
  messages : list Message;
  dialogs : list Dialog;
  requests : list Request;
  subscriptions : list Subscription;
  nextSubscription : nat;
  routeParamsSubscribed : bool;
  currentUserSubscribed : bool;
}.

Definition with_this (v : Component) (w : World) : World :=
  {| this := v;
     messages := messages w;
     dialogs := dialogs w;
     requests := requests w;
     subscriptions := subscriptions w;
     nextSubscription := nextSubscription w;
     routeParamsSubscribed := routeParamsSubscribed w;
     currentUserSubscribed := currentUserSubscribed w |}.

Definition with_messages (v : list Message) (w : World) : World :=
  {| this := this w;
     messages := v;
     dialogs := dialogs w;
     requests := requests w;
     subscriptions := subscriptions w;
     nextSubscription := nextSubscription w;
     routeParamsSubscribed := routeParamsSubscribed w;
     currentUserSubscribed := currentUserSubscribed w |}.

Definition with_dialogs (v : list Dialog) (w : World) : World :=
  {| this := this w;
     messages := messages w;
     dialogs := v;
     requests := requests w;
     subscriptions := subscriptions w;
     nextSubscription := nextSubscription w;
     routeParamsSubscribed := routeParamsSubscribed w;
     currentUserSubscribed := currentUserSubscribed w |}.

Definition with_requests (v : list Request) (w : World) : World :=
  {| this := this w;
     messages := messages w;
     dialogs := dialogs w;
     requests := v;
     subscriptions := subscriptions w;
     nextSubscription := nextSubscription w;
     routeParamsSubscribed := routeParamsSubscribed w;
     currentUserSubscribed := currentUserSubscribed w |}.

Definition with_subscriptions (v : list Subscription) (w : World) : World :=
  {| this := this w;
     messages := messages w;
     dialogs := dialogs w;
     requests := requests w;
     subscriptions := v;
     nextSubscription := nextSubscription w;
     routeParamsSubscribed := routeParamsSubscribed w;
     currentUserSubscribed := currentUserSubscribed w |}.

Definition with_nextSubscription (v : nat) (w : World) : World :=
  {| this := this w;
     messages := messages w;
     dialogs := dialogs w;
     requests := requests w;
     subscriptions := subscriptions w;
     nextSubscription := v;
     routeParamsSubscribed := routeParamsSubscribed w;
     currentUserSubscribed := currentUserSubscribed w |}.

Definition with_routeParamsSubscribed (v : bool) (w : World) : World :=
  {| this := this w;
     messages := messages w;
     dialogs := dialogs w;
     requests := requests w;
     subscriptions := subscriptions w;
     nextSubscription := nextSubscription w;
     routeParamsSubscribed := v;
     currentUserSubscribed := currentUserSubscribed w |}.

Definition with_currentUserSubscribed (v : bool) (w : World) : World :=
  {| this := this w;
     messages := messages w;
     dialogs := dialogs w;
     requests := requests w;
     subscriptions := subscriptions w;
     nextSubscription := nextSubscription w;
     routeParamsSubscribed := routeParamsSubscribed w;
     currentUserSubscribed := v |}.

(** Field initialisers of the class. *)
Definition initialComponent : Component :=
  {| destroyStopped := false;
     userCommentsPage := 0;
     ratingsPage := 0;
     solution := None;
     officialComments := [];
     userComments := [];
     ratings := [];
     loading := true;
     loadingOfficialComments := false;
     loadingUserComments := false;
     loadingRatings := false;
     hasMoreUserComments := true;
     hasMoreRatings := true;
     totalOfficialComments := 0;
     totalUserComments := 0;
     totalRatings := 0;
     activeTab := 0;
     newComment := "";
     newRating := {| score := 0; comment := "" |};
     isLoggedIn := false |}.

Definition initialWorld : World :=
  {| this := initialComponent;
     messages := [];
     dialogs := [];
     requests := [];
     subscriptions := [];
     nextSubscription := 0%nat;
     routeParamsSubscribed := false;
     currentUserSubscribed := false |}.

(** *** Methods run as state transformers over the world *)

Definition M (A : Type) : Type := World -> A * World.

#[global] Instance M_ret : MRet M := fun A a w => (a, w).

#[global] Instance M_bind : MBind M :=
  fun A B f m w => let (a, w') := m w in f a w'.

Definition exec {A} (m : M A) (w : World) : World := snd (m w).

Definition gets {A} (f : World -> A) : M A := fun w => (f w, w).

Definition modifyWorld (f : World -> World) : M unit := fun w => (tt, f w).

Definition getsThis {A} (f : Component -> A) : M A := gets (fun w => f (this w)).

Definition modifyThis (f : Component -> Component) : M unit :=
  modifyWorld (fun w => with_this (f (this w)) w).

Fixpoint forEach {A} (l : list A) (f : A -> M unit) : M unit :=
  match l with
  | [] => mret tt
  | x :: l' => f x;; forEach l' f
  end.

Definition messageService_add (m : Message) : M unit :=
  modifyWorld (fun w => with_messages (messages w ++ [m]) w).

Definition dialogService_open (d : Dialog) : M unit :=
  modifyWorld (fun w => with_dialogs (dialogs w ++ [d]) w).

(** [observable.pipe(...).subscribe(...)] on a cold HTTP observable: the
    request goes out and the subscription stays alive until it completes,
    errors or is unsubscribed. *)
Definition subscribe (r : Request) (h : Handler) (untilDestroy : bool) : M unit :=
  modifyWorld (fun w =>
    with_nextSubscription (S (nextSubscription w))
      (with_subscriptions
         (subscriptions w ++
            [{| subscriptionId := nextSubscription w; request := r;
                handler := h; untilDestroy := untilDestroy |}])
         (with_requests (requests w ++ [r]) w))).

Definition loadSolution (slug : string) : M unit :=
  modifyThis (set_loading true);;
  subscribe (HttpGet (apiUrl +:+ "/solutions/" +:+ slug)) OnSolution false.

Definition loadComments (slug : string) (loadMore : bool) : M unit :=
  (if negb loadMore then
     modifyThis (set_userCommentsPage 0);;
     modifyThis (set_officialComments []);;
     modifyThis (set_userComments [])
   else mret tt);;
  (* Load OFFICIAL comments (max 10) *)
  modifyThis (set_loadingOfficialComments true);;
  subscribe (GetSolutionComments slug 0 10 OFFICIAL) OnOfficialComments true;;
  (* Load USER comments *)
  (if negb loadMore then
     modifyThis (set_userCommentsPage 0);;
     modifyThis (set_userComments [])
   else mret tt);;
  modifyThis (set_loadingUserComments true);;
  page ← getsThis userCommentsPage;
  subscribe (GetSolutionComments slug (page * 10) 10 USER) OnUserComments true.

Definition loadRatings (slug : string) (loadMore : bool) : M unit :=
  (if negb loadMore then
     modifyThis (set_ratingsPage 0);;
     modifyThis (set_ratings []);;
     modifyThis (set_hasMoreRatings true)
   else mret tt);;
  hasMore ← getsThis hasMoreRatings;
  isLoading ← getsThis loadingRatings;
  if negb hasMore || isLoading then mret tt
  else
    modifyThis (set_loadingRatings true);;
    page ← getsThis ratingsPage;
    let skip := page * 10 in
    subscribe (GetSolutionRatings slug skip 10) OnRatings false.

Definition showLoginDialog : M unit :=
  dialogService_open {| header := "Login Required"; width := "400px" |}.

Definition submitComment (slug : string) : M unit :=
  text ← getsThis newComment;
  if negb (truthy (trim text)) then mret tt
  else subscribe (AddComment slug text) (OnCommentAdded slug) false.

Definition submitRating (slug : string) : M unit :=
  loggedIn ← getsThis isLoggedIn;
  if negb loggedIn then
    messageService_add
      {| severity := "warn"; summary := "Warning";
         detail := "Please login to submit a rating" |}
  else
    rating ← getsThis newRating;
    if score rating =? 0 then
      messageService_add
        {| severity := "warn"; summary := "Warning";
           detail := "Please select a rating score" |}
    else
      subscribe (AddRating slug (score rating) (comment rating))
        (OnRatingAdded slug) false.

(** *** The callbacks handed to [subscribe] and [finalize] *)

Definition loadSolution_next (success : bool) (data : Solution) : M unit :=
  if success then modifyThis (set_solution (Some data)) else mret tt.

Definition officialComments_next (success : bool) (data : list Comment)
    (total : Z) : M unit :=
  if success then
    modifyThis (set_officialComments data);;
    modifyThis (set_totalOfficialComments total)
  else mret tt.

Definition userComments_next (success : bool) (data : list Comment)
    (total : Z) : M unit :=
  if success then
    currentComments ← getsThis userComments;
    modifyThis (set_userComments (currentComments ++ data));;
    modifyThis (set_totalUserComments total);;
    modifyThis (set_hasMoreUserComments
      (Z.of_nat (length currentComments) + Z.of_nat (length data) <? total));;
    page ← getsThis userCommentsPage;
    modifyThis (set_userCommentsPage (page + 1))
  else mret tt.

Definition ratings_next (success : bool) (data : list Rating)
    (total : Z) : M unit :=
  if success then
    currentRatings ← getsThis ratings;
    modifyThis (set_ratings (currentRatings ++ data));;
    modifyThis (set_totalRatings total);;
    modifyThis (set_hasMoreRatings
      (Z.of_nat (length currentRatings) + Z.of_nat (length data) <? total));;
    page ← getsThis ratingsPage;
    modifyThis (set_ratingsPage (page + 1))
  else mret tt.

Definition submitComment_next (slug : string) (success : bool) : M unit :=
  if success then
    messageService_add
      {| severity := "success"; summary := "Success";
         detail := "Comment added successfully" |};;
    modifyThis (set_newComment "");;
    loadComments slug false
  else mret tt.

Definition submitRating_next (slug : string) (success : bool) : M unit :=
  if success then
    messageService_add
      {| severity := "success"; summary := "Success";
         detail := "Rating submitted successfully" |};;
    modifyThis (set_newRating {| score := 0; comment := "" |});;
    loadRatings slug false;;
    loadSolution slug
  else mret tt.

Definition next (h : Handler) (response : Response) : M unit :=
  match h, response with
  | OnSolution, SolutionResponse success data => loadSolution_next success data
  | OnOfficialComments, CommentsResponse success data total =>
      officialComments_next success data total
  | OnUserComments, CommentsResponse success data total =>
      userComments_next success data total
  | OnRatings, RatingsResponse success data total =>
      ratings_next success data total
  | OnCommentAdded slug, SubmitResponse success => submitComment_next slug success
  | OnRatingAdded slug, SubmitResponse success => submitRating_next slug success
  | _, _ => mret tt
  end.

Definition errorToast (text : string) : Message :=
  {| severity := "error"; summary := "Error"; detail := text |}.

(** [a || b] on a possibly missing string. *)
Definition orDefault (a : option string) (b : string) : string :=
  match a with
  | Some s => if truthy s then s else b
  | None => b
  end.

Definition submitComment_error (error : HttpErrorResponse) : M unit :=
  if status error =? 401 then showLoginDialog
  else messageService_add (errorToast "Failed to add comment").

Definition submitRating_error (error : HttpErrorResponse) : M unit :=
  messageService_add
    (errorToast (orDefault (errorDetail error) "Failed to submit rating")).

Definition error (h : Handler) (error : HttpErrorResponse) : M unit :=
  match h with
  | OnSolution => messageService_add (errorToast "Failed to load solution details")
  | OnOfficialComments =>
      messageService_add (errorToast "Failed to load official comments")
  | OnUserComments => messageService_add (errorToast "Failed to load user comments")
  | OnRatings => messageService_add (errorToast "Failed to load ratings")
  | OnCommentAdded _ => submitComment_error error
  | OnRatingAdded _ => submitRating_error error
  end.

(** The [finalize] callback of the pipe, where there is one. *)
Definition finalize (h : Handler) : M unit :=
  match h with
  | OnSolution => modifyThis (set_loading false)
  | OnOfficialComments => modifyThis (set_loadingOfficialComments false)
  | OnUserComments => modifyThis (set_loadingUserComments false)
  | OnRatings => modifyThis (set_loadingRatings false)
  | OnCommentAdded _ | OnRatingAdded _ => mret tt
  end.

(** *** Lifecycle and event delivery *)

(** The callback of [route.params]. *)
Definition routeParams_next (slug : string) : M unit :=
  loadSolution slug;;
  loadComments slug false;;
  loadRatings slug false.

(** The callback of [authService.currentUser$]; [user] is [!!user]. *)
Definition currentUser_next (user : bool) : M unit :=
  modifyThis (set_isLoggedIn user).

Definition ngOnInit : M unit :=
  modifyWorld (with_routeParamsSubscribed true);;
  modifyWorld (with_currentUserSubscribed true).

(** The router emits new parameters; only a live subscription hears it. *)
Definition routeParams_emit (slug : string) : M unit :=
  active ← gets routeParamsSubscribed;
  if (active : bool) then routeParams_next slug else mret tt.

Definition currentUser_emit (user : bool) : M unit :=
  active ← gets currentUserSubscribed;
  if (active : bool) then currentUser_next user else mret tt.

Definition keptOnDestroy (s : Subscription) : bool := negb (untilDestroy s).

(** [destroy$.next()] makes every [takeUntil(this.destroy$)] unsubscribe
    from its source, which runs the [finalize] callback placed before it in
    the pipe; [destroy$.complete()] then stops the subject.  On a stopped
    subject both calls do nothing. *)
Definition ngOnDestroy : M unit :=
  stopped ← getsThis destroyStopped;
  if (stopped : bool) then mret tt
  else
    modifyWorld (with_routeParamsSubscribed false);;
    subs ← gets subscriptions;
    modifyWorld (with_subscriptions (List.filter keptOnDestroy subs));;
    forEach (List.filter untilDestroy subs) (fun s => finalize (handler s));;
    modifyThis (set_destroyStopped true).

Definition hasId (id : nat) (s : Subscription) : bool :=
  Nat.eqb (subscriptionId s) id.

(** Whether a notification has the shape the observer was typed for. *)
Definition accepts (h : Handler) (n : Notification) : bool :=
  match n, h with
  | Error _, _ => true
  | Next (SolutionResponse _ _), OnSolution => true
  | Next (CommentsResponse _ _ _), (OnOfficialComments | OnUserComments) => true
  | Next (RatingsResponse _ _ _), OnRatings => true
  | Next (SubmitResponse _), (OnCommentAdded _ | OnRatingAdded _) => true
  | _, _ => false
  end.

(** The HTTP layer answers the request of subscription [id]: a response is
    passed to [next] and the observable completes, an error is passed to
    [error]; either way [finalize] runs and the subscription is gone.  A
    subscription that no longer exists hears nothing. *)
Definition deliver (id : nat) (n : Notification) : M unit :=
  subs ← gets subscriptions;
  match List.find (hasId id) subs with
  | None => mret tt
  | Some s =>
      if accepts (handler s) n then
        match n with
        | Next response => next (handler s) response
        | Error e => error (handler s) e
        end;;
        finalize (handler s);;
        modifyWorld (fun w =>
          with_subscriptions
            (List.filter (fun s' => negb (hasId id s')) (subscriptions w)) w)
      else mret tt
  end.

(** Answer every subscription alive now, oldest first. *)
Definition respondAll (server : Request -> option Notification) : M unit :=
  subs ← gets subscriptions;
  forEach subs (fun s =>
    match server (request s) with
    | Some n => deliver (subscriptionId s) n
    | None => mret tt
    end).

(** Modelled from the spec: the REST API is an external collaborator.  Its
    list endpoints take [skip] and [limit] and answer with that slice of the
    collection and the size of the whole collection; here the collections
    do not change between requests. *)
Definition slice {A} (l : list A) (skip limit : Z) : list A :=
  take (Z.to_nat limit) (drop (Z.to_nat skip) l).

Definition listServer (official user : list Comment) (rated : list Rating)
    (r : Request) : option Notification :=
  match r with
  | GetSolutionComments _ skip limit OFFICIAL =>
      Some (Next (CommentsResponse true (slice official skip limit)
                    (Z.of_nat (length official))))
  | GetSolutionComments _ skip limit USER =>
      Some (Next (CommentsResponse true (slice user skip limit)
                    (Z.of_nat (length user))))
  | GetSolutionRatings _ skip limit =>
      Some (Next (RatingsResponse true (slice rated skip limit)
                    (Z.of_nat (length rated))))
  | _ => None
  end.

(** *** Vocabulary of the properties *)

Definition responseSuccess (r : Response) : bool :=
  match r with
  | SolutionResponse success _ => success
  | CommentsResponse success _ _ => success
  | RatingsResponse success _ _ => success
  | SubmitResponse success => success
  end.

(** The loading flag that belongs to an operation, cleared; submissions
    have none. *)
Definition releaseLoading (h : Handler) (c : Component) : Component :=
  match h with
  | OnSolution => set_loading false c
  | OnOfficialComments => set_loadingOfficialComments false c
  | OnUserComments => set_loadingUserComments false c
  | OnRatings => set_loadingRatings false c
  | OnCommentAdded _ | OnRatingAdded _ => c
  end.

Definition isFeedFetch (h : Handler) : bool :=
  match h with
  | OnOfficialComments | OnUserComments | OnRatings => true
  | _ => false
  end.

(** Items, page offsets, has-more flags and totals of the three feeds. *)
Definition feedState (c : Component)
  : list Comment * list Comment * list Rating * (Z * Z) * (bool * bool)
    * (Z * Z * Z) :=
  (officialComments c, userComments c, ratings c,
   (userCommentsPage c, ratingsPage c),
   (hasMoreUserComments c, hasMoreRatings c),
   (totalOfficialComments c, totalUserComments c, totalRatings c)).

(** Subscription identifiers are handed out in increasing order. *)
Definition ids_fresh (w : World) : Prop :=
  forall s, In s (subscriptions w) ->
    (subscriptionId s < nextSubscription w)%nat.

Definition withoutId (id : nat) (subs : list Subscription) : list Subscription :=
  List.filter (fun s => negb (hasId id s)) subs.



Definition loginDialog : Dialog :=
  {| header := "Login Required"; width := "400px" |}.

Definition warningToast (text : string) : Message :=
  {| severity := "warn"; summary := "Warning"; detail := text |}.

(** *** Sequential use of a feed *)

Fixpoint repeatM (n : nat) (m : M unit) : M unit :=
  match n with
  | O => mret tt
  | S n' => m;; repeatM n' m
  end.

(** A call followed by the server's answer to everything outstanding: the
    next call is made only after the previous one has been answered. *)
Definition answered (server : Request -> option Notification) (m : M unit)
  : M unit :=
  m;; respondAll server.

(** The feed invariant of the data model. *)
Definition hasMore_matches (items : nat) (total : Z) (hasMore : bool) : Prop :=
  hasMore = (Z.of_nat items <? total).

Definition feed_invariant (items : nat) (total : Z) (hasMore : bool) : Prop :=
  hasMore_matches items total hasMore /\ Z.of_nat items <= total.

Definition ratings_invariant (w : World) : Prop :=
  feed_invariant (length (ratings (this w))) (totalRatings (this w))
    (hasMoreRatings (this w)).

Definition userComments_invariant (w : World) : Prop :=
  feed_invariant (length (userComments (this w))) (totalUserComments (this w))
    (hasMoreUserComments (this w)).

(** What the component holds of the ratings feed, and of the
    user-comments feed. *)
Definition ratingsFeed (c : Component) : list Rating * Z * bool * Z * bool :=
  (ratings c, ratingsPage c, hasMoreRatings c, totalRatings c,
   loadingRatings c).

Definition userCommentsFeed (c : Component) : list Comment * Z * bool * Z :=
  (userComments c, userCommentsPage c, hasMoreUserComments c,
   totalUserComments c).

(** No fetch of the feed is outstanding: every earlier call has been
    answered. *)
Definition ratings_idle (w : World) : Prop :=
  loadingRatings (this w) = false
  /\ forall s, In s (subscriptions w) -> handler s <> OnRatings.

Definition userComments_idle (w : World) : Prop :=
  forall s, In s (subscriptions w) -> handler s <> OnUserComments.

(** Where a feed stands after [n] pages have been asked of a server that
    holds the collection [all], each after the one before was answered. *)
Definition ratings_paged (all : list Rating) (n : nat) (w : World) : Prop :=
  ids_fresh w
  /\ ratings_idle w
  /\ ratings (this w) = take (10 * n)%nat all
  /\ totalRatings (this w) = Z.of_nat (length all)
  /\ hasMoreRatings (this w)
     = (Z.of_nat (length (ratings (this w))) <? Z.of_nat (length all))
  /\ (hasMoreRatings (this w) = true -> ratingsPage (this w) = Z.of_nat n).

Definition userComments_paged (all : list Comment) (n : nat) (w : World) : Prop :=
  ids_fresh w
  /\ userComments_idle w
  /\ userComments (this w) = take (10 * n)%nat all
  /\ totalUserComments (this w) = Z.of_nat (length all)
  /\ hasMoreUserComments (this w)
     = (Z.of_nat (length (userComments (this w))) <? Z.of_nat (length all))
  /\ userCommentsPage (this w) = Z.of_nat n.

(** A feed nothing has been loaded into, as in a new component. *)
Definition ratings_fresh (w : World) : Prop :=
  ratings (this w) = [] /\ ratingsPage (this w) = 0
  /\ hasMoreRatings (this w) = true.

Definition userComments_fresh (w : World) : Prop :=
  userComments (this w) = [] /\ userCommentsPage (this w) = 0.

(** *** Everything that can happen to the component *)

(** The framework calls the lifecycle hooks, the router and the
    authentication service emit, the template writes the bound fields and
    calls the public methods, and the HTTP layer answers a subscription. *)
Inductive Action :=
| Init
| Destroy
| RouteChanged (slug : string)
| UserChanged (user : bool)
| SetActiveTab (tab : Z)
| SetNewComment (text : string)
| SetNewRating (rating : NewRating)
| CallLoadComments (slug : string) (loadMore : bool)
| CallLoadRatings (slug : string) (loadMore : bool)
| CallSubmitComment (slug : string)
| CallSubmitRating (slug : string)
| CallShowLoginDialog
| Answer (id : nat) (n : Notification).

Definition perform (a : Action) : M unit :=
  match a with
  | Init => ngOnInit
  | Destroy => ngOnDestroy
  | RouteChanged slug => routeParams_emit slug
  | UserChanged user => currentUser_emit user
  | SetActiveTab tab => modifyThis (set_activeTab tab)
  | SetNewComment text => modifyThis (set_newComment text)
  | SetNewRating rating => modifyThis (set_newRating rating)
  | CallLoadComments slug loadMore => loadComments slug loadMore
  | CallLoadRatings slug loadMore => loadRatings slug loadMore
  | CallSubmitComment slug => submitComment slug
  | CallSubmitRating slug => submitRating slug
  | CallShowLoginDialog => showLoginDialog
  | Answer id n => deliver id n
  end.

Definition run (actions : list Action) : M unit := forEach actions perform.

(** An action that never lets a subscription identifier be reused. *)
Definition keeps_ids_fresh {A} (m : M A) : Prop :=
  forall w, ids_fresh w -> ids_fresh (exec m w).

(** The world with the four loading flags cleared: what [finalize]
    callbacks cannot tell apart. *)
Definition withoutLoading (w : World) : World :=
  with_this
    (set_loading false
       (set_loadingOfficialComments false
          (set_loadingUserComments false
             (set_loadingRatings false (this w))))) w.

Definition ratings_in_flight_ok (w : World) : Prop :=
  subscriptions_ok (subscriptions w) (nextSubscription w)
    (loadingRatings (this w)).

Definition requests_ok (w : World) : Prop :=
  0 <= userCommentsPage (this w)
  /\ 0 <= ratingsPage (this w)
  /\ Forall page_request_ok (requests w).

End WithPayloads.

Arguments Response : clear implicits.
Arguments Notification : clear implicits.
Arguments Component : clear implicits.
Arguments World : clear implicits.
Arguments M : clear implicits.
Arguments Action : clear implicits.

(** *** Severity look-ups of the component *)

(** What reading a property of an object literal gives: the string stored
    under an own key, or, for a key the literal does not have, the member
    of that name inherited from [Object.prototype]. *)
Inductive Property :=
| Text (value : string)
| InheritedMember (name : string).

(** The member names of [Object.prototype] in a browser. *)
Definition objectPrototypeMembers : list string :=
  ["constructor"; "hasOwnProperty"; "isPrototypeOf"; "propertyIsEnumerable";
   "toLocaleString"; "toString"; "valueOf"; "__proto__";
   "__defineGetter__"; "__defineSetter__"; "__lookupGetter__";
   "__lookupSetter__"].

(** [literal[key]]; [None] is [undefined]. *)
Definition getProperty (literal : gmap string string) (key : string)
  : option Property :=
  match literal !! key with
  | Some value => Some (Text value)
  | None =>
      if bool_decide (key ∈ objectPrototypeMembers)
      then Some (InheritedMember key)
      else None
  end.

(** [looked || "info"]: an inherited member is a function or an object and
    so truthy. *)
Definition orInfo (looked : option Property) : Property :=
  match looked with
  | Some (Text value) => if truthy value then Text value else Text "info"
  | Some (InheritedMember name) => InheritedMember name
  | None => Text "info"
  end.

Definition stageSeverityMap : gmap string string :=
  list_to_map
    [("DEVELOPING", "warning"); ("UAT", "info"); ("PRODUCTION", "success");
     ("DEPRECATED", "danger"); ("RETIRED", "danger")].

Definition getStageSeverity (stage : string) : Property :=
  orInfo (getProperty stageSeverityMap stage).

Definition recommendStatusSeverityMap : gmap string string :=
  list_to_map
    [("ADOPT", "success"); ("TRIAL", "info"); ("ASSESS", "warning");
     ("HOLD", "danger")].

Definition getRecommendStatusSeverity (status : string) : Property :=
  orInfo (getProperty recommendStatusSeverityMap status).

Definition adoptionLevelSeverityMap : gmap string string :=
  list_to_map
    [("PILOT", "warning"); ("TEAM", "info"); ("DEPARTMENT", "success");
     ("ENTERPRISE", "success"); ("INDUSTRY", "success")].

Definition getAdoptionLevelSeverity (level : string) : Property :=
  orInfo (getProperty adoptionLevelSeverityMap level).

(** The three look-ups, for statements about all of them. *)
Definition severityLookups : list (string -> Property) :=
  [getStageSeverity; getRecommendStatusSeverity; getAdoptionLevelSeverity].

(** The tag colours the look-ups are meant to choose from; the type
    [Severity] also allows [secondary] and [contrast]. *)
Definition tableSeverities : list string :=
  ["success"; "info"; "warning"; "danger"].

Fixpoint hasLowerCaseLetter (s : string) : bool :=
  match s with
  | EmptyString => false
  | String c s' =>
      ((97 <=? code c) && (code c <=? 122))%N || hasLowerCaseLetter s'
  end.

(** Concrete payloads for the examples: comments and ratings are numbered,
    the API lives under [/api]. *)
Definition ExampleWorld : Type := World unit nat nat.

(** A solution with three user comments, after its first page has loaded. *)
Definition exhaustedComments : ExampleWorld :=
  exec (loadComments "kafka" false;;
        respondAll "/api" (listServer [] [1; 2; 3]%nat []))
    initialWorld.

(** Load-more is asked for while the first page of five user comments is
    still in flight; both requests are then answered. *)
Definition overlappingComments : ExampleWorld :=
  exec (loadComments "kafka" false;;
        loadComments "kafka" true;;
        respondAll "/api" (listServer [] [1; 2; 3; 4; 5]%nat []))
    initialWorld.

(** A comment has been typed and submitted; the answer is outstanding. *)
Definition pendingComment : ExampleWorld :=
  exec (submitComment "kafka")
    (with_this (set_newComment "Works well for us" initialComponent)
       initialWorld).

(** The page has been opened on a solution; its four fetches are
    outstanding. *)
Definition routeOpened : ExampleWorld :=
  exec (ngOnInit;; routeParams_emit "/api" "kafka") initialWorld.

(** The first page of 25 ratings has been loaded; 20 ratings are deleted on
    the server; the second page is then asked for and answered. *)
Definition shrunkRatings : ExampleWorld :=
  exec (answered "/api" (listServer [] [] (seq 0 25)) (loadRatings "kafka" true);;
        answered "/api" (listServer [] [] (seq 0 5)) (loadRatings "kafka" true))
    initialWorld.

(** Somebody logged in has chosen four stars and submitted; the answer is
    outstanding. *)
Definition pendingRating : ExampleWorld :=
  exec (submitRating "kafka")
    (with_this
       (set_isLoggedIn true
          (set_newRating {| score := 4; comment := "solid" |} initialComponent))
       initialWorld).

End SolutionDetail.

(** * The home page template

    [home.component.html].  What is modelled: the three sections whose
    content depends on the state of the component, with the elements that
    carry a class or a structural directive, each named by its tag and
    class; the [*ngIf] tests, as JavaScript evaluates them; and the cards
    that [*ngFor] repeats over the search results.  The hero, intro,
    benefits and testimonials sections show the configuration only and are
    left out, as is what [p-carousel] draws inside itself. *)

Module HomeTemplate.
Import JsString.

Section WithSolutions.
Context {Solution : Type}.

(** The fields of the component that the template reads.  The two loading
    flags are booleans; an error is a message or absent. *)
Record HomeComponent := {
  searchKeyword : string;
  loadingSearch : bool;
  searchError : option string;
  searchResults : list Solution;
  loading : bool;
  error : option string;
  loadingNew : bool;
  newSolutionsError : option string
}.

(** Truthiness of a value that is a string, [null] or [undefined]. *)
Definition truthyText (v : option string) : bool :=
  match v with
  | Some s => truthy s
  | None => false
  end.

#[warnings="-register-all"]
Inductive Element :=
| Tag (name : string) (ngIf : option (HomeComponent -> bool))
    (children : list Element)
| ForEach (name : string) (ngFor : HomeComponent -> list Solution).

(** The elements drawn, in document order. *)
Fixpoint render (c : HomeComponent) (e : Element) : list string :=
  match e with
  | Tag name ngIf children =>
      if match ngIf with
         | Some test => test c
         | None => true
         end
      then name :: flat_map (render c) children
      else []
  | ForEach name ngFor => List.map (fun _ => name) (ngFor c)
  end.

Definition searchResultsSection : Element :=
  Tag "section.search-results" (Some (fun c => truthy (searchKeyword c)))
    [Tag "div.section-header" None
       [Tag "p"
          (Some (fun c => negb (loadingSearch c)
                          && (0 <? length (searchResults c))%nat))
          []];
     Tag "div.loading-state" (Some loadingSearch) [];
     Tag "div.error-state" (Some (fun c => truthyText (searchError c))) [];
     Tag "div.results-grid"
       (Some (fun c => negb (loadingSearch c)
                       && (0 <? length (searchResults c))%nat))
       [ForEach "app-solution-card" searchResults];
     Tag "div.no-results"
       (Some (fun c => negb (loadingSearch c)
                       && (length (searchResults c) =? 0)%nat))
       []].

Definition recommendedSection : Element :=
  Tag "section.recommended-section" None
    [Tag "div.section-header" None [];
     Tag "div.carousel-container"
       (Some (fun c => negb (loading c) && negb (truthyText (error c)))) [];
     Tag "div.loading-state" (Some loading) [];
     Tag "div.error-state" (Some (fun c => truthyText (error c))) []].

Definition newSolutionsSection : Element :=
  Tag "section.new-solutions-section" None
    [Tag "div.section-header" None [];
     Tag "div.carousel-container"
       (Some (fun c => negb (loadingNew c)
                       && negb (truthyText (newSolutionsError c)))) [];
     Tag "div.loading-state" (Some loadingNew) [];
     Tag "div.error-state"
       (Some (fun c => truthyText (newSolutionsError c))) []].

End WithSolutions.

Arguments HomeComponent : clear implicits.
Arguments Element : clear implicits.

(** How often an element of the given name is drawn. *)
Definition occurrences (name : string) (drawn : list string) : nat :=
  length (List.filter (String.eqb name) drawn).

(** A search for "kafka" has failed. *)
Definition failedSearch : HomeComponent nat :=
  {| searchKeyword := "kafka"; loadingSearch := false;
     searchError := Some "Failed to search solutions"; searchResults := [];
     loading := false; error := None;
     loadingNew := false; newSolutionsError := None |}.

End HomeTemplate.

(** * Properties *)

(** ** The string operations meet their descriptions *)

Module JsStringFacts.
Import JsString.

Lemma startsWith_iff (s p : string) : startsWith s p = true <-> starts_with s p.
Proof.
  revert s. induction p as [|a p IH]; intros s; simpl.
  - split; [intros _; now exists s | reflexivity].
  - destruct s as [|b s].
    + split; [discriminate | intros [rest H]; discriminate].
    + destruct (Ascii.eqb_spec a b) as [->|Hne].
      * rewrite IH. split.
        -- intros [rest ->]. now exists rest.
        -- intros [rest H]. simpl in H. injection H as ->. now exists rest.
      * split; [discriminate | intros [rest H]; simpl in H; injection H as H1 H2; congruence].
Qed.

Lemma includes_iff (s sub : string) : includes s sub = true <-> contains s sub.
Proof.
  induction s as [|c s IH]; simpl.
  - destruct (startsWith "" sub) eqn:E.
    + split; [intros _ | reflexivity].
      apply startsWith_iff in E as [rest E]. exists "", rest. exact E.
    + split; [discriminate |].
      intros (before & after & H).
      destruct before; simpl in H; [|discriminate].
      assert (starts_with "" sub) as Hs by (now exists after).
      apply startsWith_iff in Hs. congruence.
  - destruct (startsWith (String c s) sub) eqn:E.
    + split; [intros _ | reflexivity].
      apply startsWith_iff in E as [rest E]. exists "", rest. exact E.
    + rewrite IH. split.
      * intros (before & after & ->). now exists (String c before), after.
      * intros (before & after & H). destruct before as [|b before]; simpl in H.
        -- assert (starts_with (String c s) sub) as Hs by (now exists after).
           apply startsWith_iff in Hs. congruence.
        -- injection H as -> ->. now exists before, after.
Qed.

Lemma trimStart_empty (s : string) : trimStart s = "" <-> whitespace_only s.
Proof.
  induction s as [|c s IH]; simpl; [tauto|].
  destruct (isWhiteSpace c); [rewrite IH; tauto|].
  split; [discriminate | intros [H _]; discriminate].
Qed.

Lemma trimEnd_empty (s : string) : trimEnd s = "" <-> whitespace_only s.
Proof.
  induction s as [|c s IH]; simpl; [tauto|].
  destruct (trimEnd s) eqn:E.
  - destruct (isWhiteSpace c); [tauto|].
    split; [discriminate | intros [H _]; discriminate].
  - split; [discriminate|]. intros [_ H]. apply IH in H. discriminate.
Qed.

Lemma trimStart_whitespace_only (s : string) :
  whitespace_only (trimStart s) -> whitespace_only s.
Proof.
  induction s as [|c s IH]; simpl; [tauto|].
  destruct (isWhiteSpace c) eqn:E; simpl; [tauto|].
  intros [H _]. congruence.
Qed.

Lemma trim_falsy_iff (s : string) :
  truthy (trim s) = false <-> whitespace_only s.
Proof.
  unfold trim. split.
  - intros H. apply trimStart_whitespace_only, trimEnd_empty.
    destruct (trimEnd (trimStart s)); [reflexivity | discriminate].
  - intros H. apply trimStart_empty in H. rewrite H. reflexivity.
Qed.

Lemma all_ascii_complete (c : ascii) : In c all_ascii.
Proof.
  unfold all_ascii. rewrite <- (ascii_nat_embedding c).
  apply in_map, in_seq. pose proof (nat_ascii_bounded c). lia.
Qed.

Lemma letter_case_check_all :
  forallb (fun d => forallb (letter_case_check d) all_ascii) lowerLetters = true.
Proof. vm_compute. reflexivity. Qed.

Lemma toLowerChar_letter (c d : ascii) :
  In d lowerLetters -> (toLowerChar c = d <-> c = d \/ c = upperOf d).
Proof.
  intros Hd.
  pose proof letter_case_check_all as H.
  rewrite forallb_forall in H. specialize (H d Hd).
  rewrite forallb_forall in H. specialize (H c (all_ascii_complete c)).
  unfold letter_case_check in H. apply Bool.eqb_prop in H.
  rewrite <- Ascii.eqb_eq, H, Bool.orb_true_iff, !Ascii.eqb_eq. tauto.
Qed.

Lemma toLowerCase_variant (w : string) :
  lower_word w -> forall m, toLowerCase m = w <-> equals_ignoring_case m w.
Proof.
  unfold equals_ignoring_case.
  induction w as [|d w IH]; intros Hw m; simpl.
  - rewrite list_elem_of_singleton. destruct m; simpl; split; congruence.
  - destruct Hw as [Hd Hw]. rewrite elem_of_app, !list_elem_of_fmap.
    destruct m as [|c m]; simpl.
    + split; [discriminate|]. intros [(y & H & _)|(y & H & _)]; discriminate.
    + split.
      * intros H. injection H as Hc Hm.
        apply (toLowerChar_letter _ _ Hd) in Hc. apply (IH Hw) in Hm.
        destruct Hc as [->| ->]; [left|right]; now exists m.
      * intros [(y & H & Hy)|(y & H & Hy)]; injection H as -> ->;
          apply (IH Hw) in Hy; rewrite Hy; f_equal;
          apply (toLowerChar_letter _ _ Hd); auto.
Qed.

Lemma method_is_post (m : string) :
  String.eqb (toLowerCase m) "post" = true <-> equals_ignoring_case m "post".
Proof.
  rewrite String.eqb_eq. apply toLowerCase_variant. vm_compute. tauto.
Qed.

Lemma method_is_put (m : string) :
  String.eqb (toLowerCase m) "put" = true <-> equals_ignoring_case m "put".
Proof.
  rewrite String.eqb_eq. apply toLowerCase_variant. vm_compute. tauto.
Qed.

End JsStringFacts.

(** ** The request authorizer *)

Module AuthInterceptorSpec.
Import JsString JsStringFacts AuthInterceptor.

Section Rules.

Variable apiUrl : string.
Variable Body : Type.
Implicit Types (request : HttpRequest Body) (localStorage : gmap string string).

Lemma shouldAddToken_iff request :
  shouldAddToken apiUrl request = true <-> routing_rule apiUrl request.
Proof.
  unfold shouldAddToken, routing_rule.
  rewrite <- (includes_iff (url request)), <- startsWith_iff.
  rewrite <- !method_is_post, <- !method_is_put, <- String.eqb_eq.
  destruct (String.eqb (url request) _), (includes (url request) _),
    (startsWith (url request) apiUrl),
    (String.eqb (toLowerCase (method request)) "post"),
    (String.eqb (toLowerCase (method request)) "put"); simpl;
    intuition discriminate.
Qed.

Lemma truthy_iff (s : string) : truthy s = true <-> s <> "".
Proof. destruct s; simpl; split; congruence. Qed.

Lemma intercept_attaches localStorage request token :
  localStorage !! tokenKey = Some token -> token <> "" ->
  routing_rule apiUrl request ->
  intercept apiUrl localStorage request
  = clone_setHeader request "Authorization" ("Bearer " +:+ token).
Proof.
  intros Hget Hne Hrule. unfold intercept, getAuthToken.
  apply shouldAddToken_iff in Hrule. apply truthy_iff in Hne.
  now rewrite Hrule, Hget, Hne.
Qed.

Lemma intercept_forwards localStorage request :
  ~ (nonempty_token_stored localStorage /\ routing_rule apiUrl request) ->
  intercept apiUrl localStorage request = request.
Proof.
  intros Hnot. unfold intercept, getAuthToken.
  destruct (shouldAddToken apiUrl request) eqn:Hrule; [|reflexivity].
  apply shouldAddToken_iff in Hrule.
  destruct (localStorage !! tokenKey) as [token|] eqn:Hget; [|reflexivity].
  destruct (truthy token) eqn:Htruthy; [|reflexivity].
  exfalso. apply Hnot. split; [|exact Hrule].
  exists token. split; [exact Hget | now apply truthy_iff].
Qed.

(** C3, as amended: the bearer header is attached when a non-empty token is
    stored under [auth_token] and the request matches a routing rule (URL
    equal to [{apiUrl}/users/me], URL containing [/solutions/my/], or URL
    under [apiUrl] with method POST or PUT in any letter case); in every
    other case the request is forwarded unmodified. *)
Theorem intercept_authorization_rule localStorage request :
  authorization_rule apiUrl nonempty_token_stored localStorage request.
Proof.
  split.
  - intros [(token & Hget & Hne) Hrule]. exists token. split; [exact Hget|].
    now apply intercept_attaches.
  - apply intercept_forwards.
Qed.

End Rules.

Lemma postComment_matches_rule : routing_rule "/api" postComment.
Proof.
  right. right. split.
  - apply startsWith_iff. reflexivity.
  - left. apply method_is_post. reflexivity.
Qed.

Lemma intercept_authorization_rule_witness :
  header_attached "/api" {[ tokenKey := "abc" ]} postComment.
Proof.
  apply (intercept_authorization_rule "/api" unit {[ tokenKey := "abc" ]} postComment).
  split.
  - exists "abc". split; [reflexivity | discriminate].
  - exact postComment_matches_rule.
Defined.

(** C3 as stated fails when the value stored under [auth_token] is the
    empty string: a value is stored and the request is a POST under the API
    base, yet no header is attached. *)
Lemma empty_token_not_attached :
  ~ authorization_rule "/api" token_stored {[ tokenKey := "" ]} postComment.
Proof.
  intros [Hattach _].
  destruct Hattach as (token & Hget & Heq).
  - split; [now exists "" | exact postComment_matches_rule].
  - apply (f_equal (fun r => Http.get (headers r) "Authorization")) in Heq.
    vm_compute in Heq. discriminate.
Qed.

End AuthInterceptorSpec.

(** ** The solution-detail component *)

Module SolutionDetailSpec.
Import JsString JsStringFacts SolutionDetail.

(** *** Proof tools *)

Lemma app_two {A} (l : list A) (a b : A) : l ++ [a; b] = (l ++ [a]) ++ [b].
Proof. now rewrite <- app_assoc. Qed.

Lemma succ_eqb_self (n : nat) : Nat.eqb (S n) n = false.
Proof. apply Nat.eqb_neq. lia. Qed.

Lemma self_eqb_succ (n : nat) : Nat.eqb n (S n) = false.
Proof. apply Nat.eqb_neq. lia. Qed.

(** Name every field of the world, so that what is left to compute
    mentions only constructors and field variables. *)
Ltac open_world w :=
  destruct w as
    [ [stopped ucPage rPage sol official user rated
       ld ldOfficial ldUser ldRatings moreUser moreRatings
       totOfficial totUser totRatings tab draft rating logged]
      msgs dlgs reqs subs nextId routeOn userOn ];
  cbn [this messages dialogs requests subscriptions nextSubscription
       routeParamsSubscribed currentUserSubscribed
       destroyStopped userCommentsPage ratingsPage solution officialComments
       userComments ratings loading loadingOfficialComments
       loadingUserComments loadingRatings hasMoreUserComments hasMoreRatings
       totalOfficialComments totalUserComments totalRatings activeTab
       newComment newRating isLoggedIn] in *.

(** Read fields through the setters. *)
Ltac project :=
  cbn [this messages dialogs requests subscriptions nextSubscription
       routeParamsSubscribed currentUserSubscribed
       destroyStopped userCommentsPage ratingsPage solution officialComments
       userComments ratings loading loadingOfficialComments
       loadingUserComments loadingRatings hasMoreUserComments hasMoreRatings
       totalOfficialComments totalUserComments totalRatings activeTab
       newComment newRating isLoggedIn
       with_this with_messages with_dialogs with_requests with_subscriptions
       with_nextSubscription with_routeParamsSubscribed
       with_currentUserSubscribed
       set_destroyStopped set_userCommentsPage set_ratingsPage set_solution
       set_officialComments set_userComments set_ratings set_loading
       set_loadingOfficialComments set_loadingUserComments set_loadingRatings
       set_hasMoreUserComments set_hasMoreRatings set_totalOfficialComments
       set_totalUserComments set_totalRatings set_activeTab set_newComment
       set_newRating set_isLoggedIn].

Ltac by_computation := vm_compute; repeat split; reflexivity.

(** Replace a call by the world it evaluates to, leaving list and integer
    operations on field variables folded. *)
Ltac evaluate t :=
  let v := eval lazy -[app Z.mul Z.add Z.ltb Z.of_nat Z.to_nat length List.find
                        List.filter hasId withoutId take drop slice Nat.eqb]
           in t in
  replace t with v by (vm_compute; reflexivity).

(** Evaluate the innermost call, the one applied to an explicit world. *)
Ltac evaluate_call :=
  match goal with
  | |- context [exec ?m ?W] =>
      lazymatch W with
      | @Build_World _ _ _ _ _ _ _ _ _ _ _ => evaluate (exec m W)
      end
  end.

(** Decide the identifier comparisons left by [List.find] and [withoutId]. *)
Ltac resolve_ids :=
  unfold withoutId, hasId;
  repeat (cbn [List.filter List.find subscriptionId negb];
          rewrite ?Nat.eqb_refl, ?succ_eqb_self, ?self_eqb_succ).

(** Unfold the monad, not the methods. *)
Ltac unfold_bind :=
  cbv beta iota delta [exec mbind mret M_bind M_ret gets getsThis].

Section Feeds.

Variable apiUrl : string.
Context {Solution Comment Rating : Type}.

Local Abbreviation World := (World Solution Comment Rating).
Local Abbreviation Notification := (Notification Solution Comment Rating).
Local Abbreviation Response := (Response Solution Comment Rating).
Local Abbreviation M := (M Solution Comment Rating).
Implicit Types (w : World) (slug : string) (n : Notification) (r : Response)
  (e : HttpErrorResponse) (s : Subscription).

(** *** Sequencing and delivery *)

Lemma exec_seq {A} (m : M A) (k : M unit) w :
  exec (m;; k) w = exec k (exec m w).
Proof. unfold_bind. now destruct (m w). Qed.

Lemma deliver_eq id n w :
  exec (deliver apiUrl id n) w
  = match List.find (hasId id) (subscriptions w) with
    | Some s =>
        if accepts (handler s) n then
          exec (match n with
                | Next response => next apiUrl (handler s) response
                | Error e => error (handler s) e
                end;;
                finalize (handler s);;
                modifyWorld (fun w' =>
                  with_subscriptions (withoutId id (subscriptions w')) w')) w
        else w
    | None => w
    end.
Proof.
  unfold deliver. unfold_bind.
  destruct (List.find (hasId id) (subscriptions w)) as [s|]; [|reflexivity].
  destruct (accepts (handler s) n); reflexivity.
Qed.

Lemma respondAll_eq server w :
  exec (respondAll apiUrl server) w
  = exec (forEach (subscriptions w) (fun s =>
            match server (request s) with
            | Some n => deliver apiUrl (subscriptionId s) n
            | None => mret tt
            end)) w.
Proof. reflexivity. Qed.

Lemma ids_fresh_check w :
  forallb (fun s => Nat.ltb (subscriptionId s) (nextSubscription w))
    (subscriptions w) = true ->
  ids_fresh w.
Proof.
  intros Hall s Hin. rewrite forallb_forall in Hall.
  now apply Nat.ltb_lt, Hall.
Qed.

Lemma find_skip_old w id (l : list Subscription) :
  ids_fresh w -> (nextSubscription w <= id)%nat ->
  List.find (hasId id) (subscriptions w ++ l) = List.find (hasId id) l.
Proof.
  unfold ids_fresh. intros Hfresh Hid.
  induction (subscriptions w) as [|s0 subs IH]; simpl; [reflexivity|].
  unfold hasId at 1.
  destruct (Nat.eqb_spec (subscriptionId s0) id) as [Heq|_].
  - specialize (Hfresh s0 (or_introl eq_refl)). lia.
  - apply IH. intros s' Hin. apply Hfresh. now right.
Qed.

(** *** Guards and resets of the loaders *)

(** The guard of [loadRatings]: with nothing more to load, or a fetch in
    flight, a load-more call returns at once and the world is as before. *)
Lemma loadRatings_loadMore_guarded w slug :
  hasMoreRatings (this w) = false \/ loadingRatings (this w) = true ->
  exec (loadRatings slug true) w = w.
Proof.
  open_world w. intros [-> | ->]; [|destruct moreRatings]; by_computation.
Qed.

(** C1 fails on the code: [loadComments] has no such guard.  Called with
    [loadMore = true] while [hasMoreUserComments] is false or
    [loadingUserComments] is true, it still issues the request for the
    official comments and the request for the next page of user comments. *)
Theorem loadComments_loadMore_not_guarded w slug :
  hasMoreUserComments (this w) = false \/ loadingUserComments (this w) = true ->
  requests (exec (loadComments slug true) w)
  = requests w ++
      [GetSolutionComments slug 0 10 OFFICIAL;
       GetSolutionComments slug (userCommentsPage (this w) * 10) 10 USER].
Proof.
  intros _. open_world w.
  transitivity
    ((reqs ++ [GetSolutionComments slug 0 10 OFFICIAL]) ++
       [GetSolutionComments slug (ucPage * 10) 10 USER]).
  - by_computation.
  - now rewrite <- app_assoc.
Qed.

(** What the reset blocks of the two loaders establish.  The official
    feed has an item sequence only: its request is always for offset 0,
    and there is no flag for it. *)
Lemma reset_entry_point_clears w slug :
  let w' := exec (loadComments slug false;; loadRatings slug false) w in
  officialComments (this w') = [] /\ userComments (this w') = []
  /\ ratings (this w') = []
  /\ userCommentsPage (this w') = 0 /\ ratingsPage (this w') = 0
  /\ hasMoreRatings (this w') = true.
Proof.
  open_world w. destruct ldRatings; by_computation.
Qed.

(** C2 fails on the code: the reset block of [loadComments] does not touch
    [hasMoreUserComments], so a feed that was exhausted stays marked as
    exhausted after the reset, where [loadRatings] sets its flag to true. *)
Theorem loadComments_reset_keeps_hasMore w slug :
  hasMoreUserComments (this w) = false ->
  hasMoreUserComments (this (exec (loadComments slug false) w)) = false.
Proof. open_world w. intros ->. by_computation. Qed.


(** *** Failures and validation *)

(** C8: when the submission of a comment fails with status 401 the login
    dialog is opened and no toast is shown; with any other status the
    generic error toast is shown and no dialog is opened. *)
Theorem submitComment_failure w id s slug e :
  List.find (hasId id) (subscriptions w) = Some s ->
  handler s = OnCommentAdded slug ->
  let w' := exec (deliver apiUrl id (Error e)) w in
  (status e = 401 ->
     dialogs w' = dialogs w ++ [loginDialog] /\ messages w' = messages w)
  /\ (status e <> 401 ->
        messages w' = messages w ++ [errorToast "Failed to add comment"]
        /\ dialogs w' = dialogs w).
Proof.
  intros Hfind Hhandler. cbv zeta.
  rewrite deliver_eq, Hfind, Hhandler. cbn [accepts].
  destruct e as [st dt]. cbn [status].
  unfold_bind. cbv beta iota delta [error submitComment_error status].
  split; intros Hst.
  - subst st. open_world w. by_computation.
  - apply Z.eqb_neq in Hst. rewrite Hst. open_world w. by_computation.
Qed.

(** C9: validation failures end the call before any request is issued.
    [submitComment] on an empty or whitespace-only draft does nothing at
    all; [submitRating] when nobody is logged in, or with score 0, issues no
    request and shows one warning toast. *)
Theorem validation_short_circuits w slug :
  (whitespace_only (newComment (this w)) -> exec (submitComment slug) w = w)
  /\ (isLoggedIn (this w) = false \/ score (newRating (this w)) = 0 ->
        let w' := exec (submitRating slug) w in
        requests w' = requests w
        /\ subscriptions w' = subscriptions w
        /\ this w' = this w
        /\ dialogs w' = dialogs w
        /\ messages w' = messages w ++
             [warningToast
                (if isLoggedIn (this w) then "Please select a rating score"
                 else "Please login to submit a rating")]).
Proof.
  split.
  - intros Hblank. apply trim_falsy_iff in Hblank.
    unfold submitComment. unfold_bind. now rewrite Hblank.
  - open_world w. destruct rating as [sc cm]. cbn [score].
    intros [-> | ->]; [|destruct logged]; by_computation.
Qed.

(** C10: a response with [success = false] changes nothing but the loading
    flag of its operation: no toast, no dialog, no request, and every other
    field of the component as before.  The subscription completes. *)
Theorem unsuccessful_response w id s r :
  List.find (hasId id) (subscriptions w) = Some s ->
  accepts (handler s) (Next r) = true ->
  responseSuccess r = false ->
  let w' := exec (deliver apiUrl id (Next r)) w in
  this w' = releaseLoading (handler s) (this w)
  /\ messages w' = messages w
  /\ dialogs w' = dialogs w
  /\ requests w' = requests w
  /\ subscriptions w' = withoutId id (subscriptions w).
Proof.
  intros Hfind Haccepts Hfailed. cbv zeta.
  rewrite deliver_eq, Hfind, Haccepts.
  destruct s as [sid req h guarded]. cbn [handler] in *.
  open_world w.
  destruct h, r as [ok ? | ok ? ? | ok ? ? | ok];
    try discriminate Haccepts; cbn [responseSuccess] in Hfailed; subst ok;
    by_computation.
Qed.

(** C7, first part: the error callback of a feed fetch leaves items, page
    offsets, has-more flags and totals of all feeds as they were, issues no
    request and shows exactly one error toast.  Second and third part: a
    fetch that failed is repeated by the next load-more call with the same
    offset and limit. *)
Theorem failed_fetch_is_retriable w slug e :
  (forall id s,
     List.find (hasId id) (subscriptions w) = Some s ->
     isFeedFetch (handler s) = true ->
     let w' := exec (deliver apiUrl id (Error e)) w in
     feedState (this w') = feedState (this w)
     /\ this w' = releaseLoading (handler s) (this w)
     /\ requests w' = requests w
     /\ dialogs w' = dialogs w
     /\ exists text, messages w' = messages w ++ [errorToast text])
  /\ (forall loadMore : bool,
        ids_fresh w ->
        loadingRatings (this w) = false ->
        (loadMore = true -> hasMoreRatings (this w) = true) ->
        let page :=
          GetSolutionRatings slug
            ((if loadMore then ratingsPage (this w) else 0) * 10) 10 in
        let w1 := exec (loadRatings slug loadMore) w in
        let w2 := exec (deliver apiUrl (nextSubscription w) (Error e)) w1 in
        requests w1 = requests w ++ [page]
        /\ requests (exec (loadRatings slug true) w2) = requests w2 ++ [page])
  /\ (forall loadMore : bool,
        ids_fresh w ->
        let page :=
          GetSolutionComments slug
            ((if loadMore then userCommentsPage (this w) else 0) * 10) 10 USER in
        let official := GetSolutionComments slug 0 10 OFFICIAL in
        let w1 := exec (loadComments slug loadMore) w in
        let w2 :=
          exec (deliver apiUrl (S (nextSubscription w)) (Error e)) w1 in
        requests w1 = requests w ++ [official; page]
        /\ requests (exec (loadComments slug true) w2)
           = requests w2 ++ [official; page]).
Proof.
  split; [|split].
  - intros id s Hfind Hfeed. cbv zeta.
    rewrite deliver_eq, Hfind. cbn [accepts].
    destruct s as [sid req h guarded]. cbn [handler] in *.
    open_world w.
    destruct h; try discriminate Hfeed;
      vm_compute; repeat split; try reflexivity; eexists; reflexivity.
  - intros loadMore Hfresh Hidle Hmore. cbv zeta.
    pose proof (fun l => find_skip_old w (nextSubscription w) l Hfresh
                           (Nat.le_refl _)) as Hfind.
    clear Hfresh. open_world w. subst ldRatings.
    assert (moreRatings = true \/ loadMore = false) as [-> | ->]
      by (destruct loadMore; auto).
    + split; [destruct loadMore; by_computation|].
      rewrite deliver_eq.
      destruct loadMore;
        evaluate_call;
        cbn [subscriptions]; rewrite Hfind;
        cbn [List.find]; unfold hasId; cbn [subscriptionId]; rewrite Nat.eqb_refl;
        by_computation.
    + split; [by_computation|].
      rewrite deliver_eq.
      evaluate_call.
      cbn [subscriptions]. rewrite Hfind.
      cbn [List.find]. unfold hasId. cbn [subscriptionId]. rewrite Nat.eqb_refl.
      by_computation.
  - intros loadMore Hfresh. cbv zeta. rewrite !app_two.
    pose proof (fun l => find_skip_old w (S (nextSubscription w)) l Hfresh
                           (Nat.le_succ_diag_r _)) as Hfind.
    clear Hfresh. open_world w.
    split; [destruct loadMore; by_computation|].
    rewrite deliver_eq.
    destruct loadMore;
      evaluate_call;
      cbn [subscriptions]; rewrite <- app_assoc, Hfind;
      cbn [app List.find]; unfold hasId; cbn [subscriptionId];
      rewrite Nat.eqb_refl, (proj2 (Nat.eqb_neq nextId (S nextId)))
        by apply Nat.neq_succ_diag_r;
      by_computation.
Qed.

(** *** Pages of a feed *)

Lemma loadRatings_reset_eq w slug :
  exec (loadRatings slug false) w
  = exec (loadRatings slug true)
      (with_this
         (set_hasMoreRatings true (set_ratings [] (set_ratingsPage 0 (this w))))
         w).
Proof. open_world w. by_computation. Qed.

Lemma loadComments_reset_eq w slug :
  exec (loadComments slug false) w
  = exec (loadComments slug true)
      (with_this
         (set_userComments []
            (set_officialComments [] (set_userCommentsPage 0 (this w))))
         w).
Proof. open_world w. by_computation. Qed.

Lemma slice_take {A} (l : list A) (n : nat) :
  take (10 * n)%nat l ++ slice l (Z.of_nat n * 10) 10 = take (10 * S n)%nat l.
Proof.
  unfold slice.
  replace (Z.to_nat (Z.of_nat n * 10)) with (10 * n)%nat by lia.
  replace (Z.to_nat 10) with 10%nat by reflexivity.
  rewrite take_take_drop. f_equal. lia.
Qed.

Lemma hasMore_after_append {A} (items data : list A) (total : Z) :
  (Z.of_nat (length items) + Z.of_nat (length data) <? total)
  = (Z.of_nat (length (items ++ data)) <? total).
Proof. now rewrite length_app, Nat2Z.inj_add. Qed.

Lemma hasMore_after_ratings_page w id s (data : list Rating) (total : Z) :
  List.find (hasId id) (subscriptions w) = Some s ->
  handler s = OnRatings ->
  let w' := exec (deliver apiUrl id (Next (RatingsResponse true data total))) w in
  hasMore_matches (length (ratings (this w'))) (totalRatings (this w'))
    (hasMoreRatings (this w')).
Proof.
  intros Hfind Hhandler. cbv zeta. unfold hasMore_matches.
  rewrite deliver_eq, Hfind, Hhandler. cbn [accepts].
  open_world w. evaluate_call. project. apply hasMore_after_append.
Qed.

Lemma hasMore_after_userComments_page w id s (data : list Comment)
    (total : Z) :
  List.find (hasId id) (subscriptions w) = Some s ->
  handler s = OnUserComments ->
  let w' :=
    exec (deliver apiUrl id (Next (CommentsResponse true data total))) w in
  hasMore_matches (length (userComments (this w')))
    (totalUserComments (this w')) (hasMoreUserComments (this w')).
Proof.
  intros Hfind Hhandler. cbv zeta. unfold hasMore_matches.
  rewrite deliver_eq, Hfind, Hhandler. cbn [accepts].
  open_world w. evaluate_call. project. apply hasMore_after_append.
Qed.

(** *** Teardown *)

(** C6 fails on the code: only the two comment fetches end in
    [takeUntil(this.destroy$)].  When the page is destroyed while its four
    fetches are outstanding, the answers to the comment fetches are dropped,
    but the answer to the ratings fetch still fills the ratings of the
    destroyed component and the answer to the solution fetch still sets its
    solution. *)
Theorem callbacks_run_after_destroy slug (sol : Solution)
    (comments : list Comment) (rated : list Rating) (total : Z) :
  let opened := exec (ngOnInit;; routeParams_emit apiUrl slug) initialWorld in
  let destroyed := exec ngOnDestroy opened in
  List.map handler (subscriptions opened)
  = [OnSolution; OnOfficialComments; OnUserComments; OnRatings]
  /\ List.map handler (subscriptions destroyed) = [OnSolution; OnRatings]
  /\ exec (deliver apiUrl 1 (Next (CommentsResponse true comments total)))
       destroyed = destroyed
  /\ exec (deliver apiUrl 2 (Next (CommentsResponse true comments total)))
       destroyed = destroyed
  /\ ratings (this destroyed) = []
  /\ ratings (this (exec (deliver apiUrl 3
                            (Next (RatingsResponse true rated total)))
                      destroyed)) = rated
  /\ solution (this destroyed) = None
  /\ solution (this (exec (deliver apiUrl 0 (Next (SolutionResponse true sol)))
                       destroyed)) = Some sol.
Proof. by_computation. Qed.

End Feeds.

Section Fresh.

Variable apiUrl : string.
Context {Solution Comment Rating : Type}.

Local Abbreviation World := (World Solution Comment Rating).
Local Abbreviation Notification := (Notification Solution Comment Rating).
Local Abbreviation M := (M Solution Comment Rating).
Local Abbreviation Action := (Action Solution Comment Rating).
Implicit Types (w : World) (slug : string).

(** *** Subscription identifiers stay fresh *)

Lemma ids_fresh_same w w' :
  subscriptions w' = subscriptions w ->
  nextSubscription w' = nextSubscription w ->
  ids_fresh w -> ids_fresh w'.
Proof. unfold ids_fresh. intros -> ->. auto. Qed.

Lemma keeps_ret {A} (a : A) : keeps_ids_fresh (mret a : M A).
Proof. intros w H. exact H. Qed.

Lemma keeps_bind {A B} (m : M A) (k : A -> M B) :
  keeps_ids_fresh m -> (forall a, keeps_ids_fresh (k a)) ->
  keeps_ids_fresh (m ≫= k).
Proof.
  intros Hm Hk w H. specialize (Hm w H). unfold exec in *.
  cbv beta iota delta [mbind M_bind]. destruct (m w) as [a w1].
  now apply Hk.
Qed.

Lemma keeps_gets {A} (f : World -> A) : keeps_ids_fresh (gets f).
Proof. intros w H. exact H. Qed.

Lemma keeps_getsThis {A} (f : Component Solution Comment Rating -> A) :
  keeps_ids_fresh (getsThis f).
Proof. intros w H. exact H. Qed.

Lemma keeps_modifyThis f : keeps_ids_fresh (modifyThis f : M unit).
Proof. intros w. now apply ids_fresh_same. Qed.

Lemma keeps_messageService_add m :
  keeps_ids_fresh (messageService_add m : M unit).
Proof. intros w. now apply ids_fresh_same. Qed.

Lemma keeps_dialogService_open d :
  keeps_ids_fresh (dialogService_open d : M unit).
Proof. intros w. now apply ids_fresh_same. Qed.

Lemma keeps_subscribe r h guarded :
  keeps_ids_fresh (subscribe r h guarded : M unit).
Proof.
  intros w H s Hin. unfold exec, subscribe, modifyWorld in Hin |- *.
  cbn in Hin |- *. apply in_app_or in Hin as [Hin | [<- | []]].
  - specialize (H s Hin). lia.
  - cbn [subscriptionId]. lia.
Qed.

Lemma keeps_filter (keep : World -> Subscription -> bool) :
  keeps_ids_fresh
    (modifyWorld (fun w =>
       with_subscriptions (List.filter (keep w) (subscriptions w)) w) : M unit).
Proof.
  intros w H s Hin. unfold exec, modifyWorld in Hin |- *.
  cbn in Hin |- *. apply filter_In in Hin as [Hin _]. now apply H.
Qed.

Lemma keeps_flag (f : World -> World) :
  (forall w, subscriptions (f w) = subscriptions w) ->
  (forall w, nextSubscription (f w) = nextSubscription w) ->
  keeps_ids_fresh (modifyWorld f : M unit).
Proof. intros Hs Hn w. now apply ids_fresh_same. Qed.

Lemma keeps_forEach {A} (l : list A) (f : A -> M unit) :
  (forall a, keeps_ids_fresh (f a)) -> keeps_ids_fresh (forEach l f).
Proof.
  intros Hf. induction l as [|a l IH]; cbn [forEach].
  - apply keeps_ret.
  - apply keeps_bind; auto.
Qed.

(** Follow the structure of a method, by the shape of the term. *)
Ltac keeps_step :=
  lazymatch goal with
  | |- @keeps_ids_fresh _ _ _ _ (mret _) => apply keeps_ret
  | |- @keeps_ids_fresh _ _ _ _ (mbind _ _) => apply keeps_bind; [|intros ?]
  | |- @keeps_ids_fresh _ _ _ _ (gets _) => apply keeps_gets
  | |- @keeps_ids_fresh _ _ _ _ (getsThis _) => apply keeps_getsThis
  | |- @keeps_ids_fresh _ _ _ _ (modifyThis _) => apply keeps_modifyThis
  | |- @keeps_ids_fresh _ _ _ _ (messageService_add _) =>
      apply keeps_messageService_add
  | |- @keeps_ids_fresh _ _ _ _ (dialogService_open _) =>
      apply keeps_dialogService_open
  | |- @keeps_ids_fresh _ _ _ _ (subscribe _ _ _) => apply keeps_subscribe
  | |- @keeps_ids_fresh _ _ _ _ (if ?b then _ else _) => destruct b
  | |- @keeps_ids_fresh _ _ _ _ (match ?x with _ => _ end) => destruct x
  end.

Ltac keeps := repeat keeps_step.

Lemma keeps_loadSolution slug : keeps_ids_fresh (loadSolution apiUrl slug : M unit).
Proof. unfold loadSolution. keeps. Qed.

Lemma keeps_loadComments slug loadMore :
  keeps_ids_fresh (loadComments slug loadMore : M unit).
Proof. unfold loadComments. keeps. Qed.

Lemma keeps_loadRatings slug loadMore :
  keeps_ids_fresh (loadRatings slug loadMore : M unit).
Proof. unfold loadRatings. keeps. Qed.

Lemma keeps_finalize h : keeps_ids_fresh (finalize h : M unit).
Proof. unfold finalize. keeps. Qed.

Lemma keeps_next h (r : Response Solution Comment Rating) :
  keeps_ids_fresh (next apiUrl h r).
Proof.
  unfold next, loadSolution_next, officialComments_next, userComments_next,
    ratings_next, submitComment_next, submitRating_next.
  keeps; first [apply keeps_loadComments | apply keeps_loadRatings
               | apply keeps_loadSolution].
Qed.

Lemma keeps_error h e : keeps_ids_fresh (error h e : M unit).
Proof.
  unfold error, submitComment_error, submitRating_error, showLoginDialog. keeps.
Qed.

Lemma keeps_deliver id (n : Notification) :
  keeps_ids_fresh (deliver apiUrl id n).
Proof.
  unfold deliver. apply keeps_bind; [apply keeps_gets|]. intros subs.
  destruct (List.find (hasId id) subs) as [s|]; [|apply keeps_ret].
  destruct (accepts (handler s) n); [|apply keeps_ret].
  apply keeps_bind; [|intros _; apply keeps_bind;
                       [apply keeps_finalize | intros _]].
  - destruct n; [apply keeps_next | apply keeps_error].
  - apply (keeps_filter (fun _ s' => negb (hasId id s'))).
Qed.

Lemma keeps_ngOnDestroy : keeps_ids_fresh (ngOnDestroy : M unit).
Proof.
  intros w H. unfold ngOnDestroy. unfold_bind.
  destruct (destroyStopped (this w)); [exact H|].
  cbv beta iota delta [modifyWorld].
  match goal with
  | |- ids_fresh (snd (let (_, w') := forEach ?l ?f ?W in _)) =>
      pose proof (keeps_forEach l f (fun s => keeps_finalize (handler s)) W)
        as Hloop;
      unfold exec in Hloop; destruct (forEach l f W) as [u w1]
  end.
  apply keeps_modifyThis. apply Hloop.
  intros s Hin. cbn in Hin |- *.
  apply filter_In in Hin as [Hin _]. now apply H.
Qed.

Lemma keeps_perform (a : Action) : keeps_ids_fresh (perform apiUrl a).
Proof.
  destruct a; cbn [perform].
  - unfold ngOnInit. apply keeps_bind; [|intros _]; now apply keeps_flag.
  - apply keeps_ngOnDestroy.
  - unfold routeParams_emit, routeParams_next. keeps;
      first [apply keeps_loadComments | apply keeps_loadRatings
            | apply keeps_loadSolution].
  - unfold currentUser_emit, currentUser_next. keeps.
  - keeps.
  - keeps.
  - keeps.
  - apply keeps_loadComments.
  - apply keeps_loadRatings.
  - unfold submitComment. keeps.
  - unfold submitRating. keeps.
  - unfold showLoginDialog. keeps.
  - apply keeps_deliver.
Qed.

(** Whatever happens to a new component, no two live subscriptions share an
    identifier with one handed out later. *)
Lemma reachable_ids_fresh (actions : list Action) :
  ids_fresh (exec (run apiUrl actions) initialWorld).
Proof.
  apply (keeps_forEach actions (perform apiUrl) keeps_perform).
  intros s [].
Qed.

End Fresh.

(** *** Examples *)

Lemma loadComments_loadMore_not_guarded_witness :
  hasMoreUserComments (this exhaustedComments) = false
  /\ requests (exec (loadComments "kafka" true) exhaustedComments)
     = requests exhaustedComments ++
         [GetSolutionComments "kafka" 0 10 OFFICIAL;
          GetSolutionComments "kafka" 10 10 USER].
Proof.
  split; [reflexivity|].
  apply (loadComments_loadMore_not_guarded exhaustedComments "kafka").
  left. reflexivity.
Defined.

(** What the missing guard costs: both requests ask for offset 0, and the
    same page is appended twice. *)
Lemma overlapping_fetches_duplicate_page :
  requests overlappingComments
  = [GetSolutionComments "kafka" 0 10 OFFICIAL;
     GetSolutionComments "kafka" 0 10 USER;
     GetSolutionComments "kafka" 0 10 OFFICIAL;
     GetSolutionComments "kafka" 0 10 USER]
  /\ userComments (this overlappingComments)
     = [1; 2; 3; 4; 5; 1; 2; 3; 4; 5]%nat
  /\ totalUserComments (this overlappingComments) = 5.
Proof. by_computation. Qed.

Lemma loadComments_reset_keeps_hasMore_witness :
  hasMoreUserComments (this (exec (loadComments "redis" false) exhaustedComments))
  = false.
Proof.
  apply (loadComments_reset_keeps_hasMore exhaustedComments "redis").
  reflexivity.
Defined.


Lemma submitComment_failure_witness :
  let w' :=
    exec (deliver "/api" 0 (Error {| status := 401; errorDetail := None |}))
      pendingComment in
  dialogs w' = [loginDialog] /\ messages w' = [].
Proof.
  destruct (submitComment_failure "/api" pendingComment 0
              {| subscriptionId := 0;
                 request := AddComment "kafka" "Works well for us";
                 handler := OnCommentAdded "kafka"; untilDestroy := false |}
              "kafka" {| status := 401; errorDetail := None |})
    as [Hlogin _]; [reflexivity | reflexivity |].
  apply Hlogin. reflexivity.
Defined.

Lemma validation_short_circuits_witness :
  exec (submitComment "kafka")
    (with_this (set_newComment "   " initialComponent) initialWorld)
  = (with_this (set_newComment "   " initialComponent) initialWorld
       : ExampleWorld)
  /\ requests (exec (submitRating "kafka") (initialWorld : ExampleWorld)) = [].
Proof.
  split.
  - apply (validation_short_circuits
             (with_this (set_newComment "   " initialComponent) initialWorld)
             "kafka").
    repeat split; reflexivity.
  - apply (validation_short_circuits (initialWorld : ExampleWorld) "kafka").
    left. reflexivity.
Defined.

Lemma unsuccessful_response_witness :
  let w' := exec (deliver "/api" 3 (Next (RatingsResponse false [] 0)))
              routeOpened in
  this w' = set_loadingRatings false (this routeOpened)
  /\ messages w' = [].
Proof.
  destruct (unsuccessful_response "/api" routeOpened 3
              {| subscriptionId := 3; request := GetSolutionRatings "kafka" 0 10;
                 handler := OnRatings; untilDestroy := false |}
              (RatingsResponse false [] 0))
    as (Hthis & Hmessages & _); [reflexivity | reflexivity | reflexivity |].
  split; [exact Hthis | exact Hmessages].
Defined.

Lemma failed_fetch_is_retriable_witness :
  let e := {| status := 503; errorDetail := None |} in
  let failed := exec (deliver "/api" 3 (Error e)) routeOpened in
  let page := GetSolutionRatings "kafka" 0 10 in
  let w1 := exec (loadRatings "kafka" true) (initialWorld : ExampleWorld) in
  let w2 := exec (deliver "/api" 0 (Error e)) w1 in
  feedState (this failed) = feedState (this routeOpened)
  /\ requests w1 = [page]
  /\ requests (exec (loadRatings "kafka" true) w2) = requests w2 ++ [page].
Proof.
  intros e failed page w1 w2.
  destruct (failed_fetch_is_retriable "/api" routeOpened "kafka" e)
    as (Hcallback & _ & _).
  destruct (Hcallback 3%nat
              {| subscriptionId := 3; request := GetSolutionRatings "kafka" 0 10;
                 handler := OnRatings; untilDestroy := false |})
    as (Hfeed & _); [vm_compute; reflexivity | reflexivity |].
  split; [exact Hfeed|].
  destruct (failed_fetch_is_retriable "/api" (initialWorld : ExampleWorld)
              "kafka" e) as (_ & Hretry & _).
  apply (Hretry true).
  - apply ids_fresh_check. reflexivity.
  - reflexivity.
  - reflexivity.
Defined.

(** C4 as stated fails when the collection shrinks between two fetches:
    ten ratings are held and the second answer reports a total of five. *)
Lemma ratings_exceed_shrunk_total : ~ ratings_invariant shrunkRatings.
Proof. intros [_ Hwithin]. vm_compute in Hwithin. now apply Hwithin. Qed.

End SolutionDetailSpec.

(** * Further properties *)

(** ** The request authorizer: what it leaves alone and whom it trusts *)

Module AuthInterceptorMore.
Import JsString JsStringFacts AuthInterceptor AuthInterceptorSpec.

Section Forwarding.

Variable apiUrl : string.
Variable Body : Type.
Implicit Types (request : HttpRequest Body) (localStorage : gmap string string).

Lemma shouldAddToken_clone request name value :
  shouldAddToken apiUrl (clone_setHeader request name value)
  = shouldAddToken apiUrl request.
Proof. reflexivity. Qed.

(** The three outcomes of [intercept]. *)
Lemma intercept_cases localStorage request :
  intercept apiUrl localStorage request = request
  \/ exists token,
       localStorage !! tokenKey = Some token /\ token <> ""
       /\ shouldAddToken apiUrl request = true
       /\ intercept apiUrl localStorage request
          = clone_setHeader request "Authorization" ("Bearer " +:+ token).
Proof.
  unfold intercept, getAuthToken.
  destruct (shouldAddToken apiUrl request) eqn:Hrule; [|now left].
  destruct (localStorage !! tokenKey) as [token|]; [|now left].
  destruct (truthy token) eqn:Htoken; [|now left].
  right. exists token. repeat split. now apply truthy_iff.
Qed.

(** *** Headers *)

Lemma getAll_set_same (headers : Http.HttpHeaders) (name other value : string) :
  toLowerCase other = toLowerCase name ->
  Http.getAll (Http.set headers name value) other = Some [value].
Proof.
  intros Hsame. unfold Http.getAll, Http.set.
  now rewrite Hsame, lookup_insert_eq.
Qed.

Lemma lookup_set_other (headers : Http.HttpHeaders) (name other value : string) :
  toLowerCase other <> toLowerCase name ->
  Http.set headers name value !! toLowerCase other
  = headers !! toLowerCase other.
Proof. intros Hother. unfold Http.set. now rewrite lookup_insert_ne. Qed.

Lemma set_set (headers : Http.HttpHeaders) (name value : string) :
  Http.set (Http.set headers name value) name value
  = Http.set headers name value.
Proof.
  unfold Http.set at 1. unfold Http.normalizedName at 1.
  unfold Http.set at 1. rewrite lookup_insert_eq. cbn [fmap option_fmap option_map fst default].
  unfold Http.set. apply insert_insert_eq.
Qed.

(** Passing a request through the interceptor twice is the same as passing
    it through once. *)
Theorem intercept_idempotent localStorage request :
  intercept apiUrl localStorage (intercept apiUrl localStorage request)
  = intercept apiUrl localStorage request.
Proof.
  destruct (intercept_cases localStorage request)
    as [Hsame | (token & Hget & Hne & Hrule & Hclone)].
  - now rewrite !Hsame.
  - rewrite Hclone. unfold intercept at 1.
    rewrite shouldAddToken_clone, Hrule. unfold getAuthToken. rewrite Hget.
    apply truthy_iff in Hne. rewrite Hne.
    unfold clone_setHeader. cbn [url method headers body].
    now rewrite set_set.
Qed.

(** The forwarded request has the URL, the method and the body of the
    original, and every header other than [Authorization], in whatever
    letter case that name is written, has the values and the spelling it
    had. *)
Theorem intercept_keeps_the_rest localStorage request :
  let forwarded := intercept apiUrl localStorage request in
  url forwarded = url request
  /\ method forwarded = method request
  /\ body forwarded = body request
  /\ forall name, toLowerCase name <> "authorization" ->
       Http.getAll (headers forwarded) name
       = Http.getAll (headers request) name
       /\ Http.get (headers forwarded) name = Http.get (headers request) name
       /\ Http.normalizedName (headers forwarded) name
          = Http.normalizedName (headers request) name.
Proof.
  cbv zeta.
  destruct (intercept_cases localStorage request)
    as [-> | (token & _ & _ & _ & ->)]; [now repeat split|].
  split; [reflexivity|]. split; [reflexivity|]. split; [reflexivity|].
  intros name Hname. cbn [clone_setHeader headers].
  unfold Http.get, Http.getAll, Http.normalizedName.
  now rewrite lookup_set_other.
Qed.

(** An [Authorization] header the caller has set, under whatever spelling
    of the name, has its values replaced by the one bearer value when the
    token is attached, and is kept as it is otherwise; the interceptor
    never removes it. *)
Theorem intercept_authorization_header localStorage request (name : string) :
  toLowerCase name = "authorization" ->
  Http.getAll (headers (intercept apiUrl localStorage request)) name
  = match localStorage !! tokenKey with
    | Some token =>
        if shouldAddToken apiUrl request && truthy token
        then Some ["Bearer " +:+ token]
        else Http.getAll (headers request) name
    | None => Http.getAll (headers request) name
    end.
Proof.
  intros Hname. unfold intercept, getAuthToken.
  destruct (shouldAddToken apiUrl request), (localStorage !! tokenKey) as [token|];
    cbn [andb]; try reflexivity.
  destruct (truthy token); [|reflexivity].
  cbn [clone_setHeader headers]. now apply getAll_set_same.
Qed.

(** The "my solutions" rule looks at the URL only for the text
    [/solutions/my/]: with a token stored, a request to any host and with
    any method whose URL contains it carries the token, whether or not the
    URL is under [apiUrl]. *)
Theorem token_sent_wherever_path_matches localStorage request token
    (before after : string) :
  localStorage !! tokenKey = Some token -> token <> "" ->
  url request = before +:+ "/solutions/my/" +:+ after ->
  Http.get (headers (intercept apiUrl localStorage request)) "Authorization"
  = Some ("Bearer " +:+ token).
Proof.
  intros Hget Hne Hurl.
  rewrite (intercept_attaches apiUrl Body localStorage request token Hget Hne).
  - cbn [clone_setHeader headers]. unfold Http.get.
    now rewrite getAll_set_same.
  - right. left. now exists before, after.
Qed.

Lemma append_cons (x : ascii) (a b : string) :
  String x a +:+ b = String x (a +:+ b).
Proof. reflexivity. Qed.

Lemma append_same_length (a b : string) : a +:+ b = a -> b = "".
Proof.
  induction a as [|c a IH]; [auto|].
  rewrite append_cons. intros H. injection H as H. auto.
Qed.

Lemma append_assoc (a b c : string) : (a +:+ b) +:+ c = a +:+ b +:+ c.
Proof.
  induction a as [|x a IH]; [reflexivity|].
  rewrite !append_cons. now f_equal.
Qed.

(** The "current user" rule is an exact match: a read of
    [{apiUrl}/users/me] followed by anything more (a query string, a
    trailing slash) is forwarded without the token, unless another rule
    applies. *)
Theorem users_me_with_suffix_not_authorized localStorage request
    (suffix : string) :
  url request = apiUrl +:+ "/users/me" +:+ suffix -> suffix <> "" ->
  includes (url request) "/solutions/my/" = false ->
  toLowerCase (method request) <> "post" ->
  toLowerCase (method request) <> "put" ->
  intercept apiUrl localStorage request = request.
Proof.
  intros Hurl Hsuffix Hmy Hpost Hput.
  unfold intercept, shouldAddToken. rewrite Hmy.
  apply String.eqb_neq in Hpost, Hput. rewrite Hpost, Hput.
  assert (String.eqb (url request) (apiUrl +:+ "/users/me") = false) as ->.
  { apply String.eqb_neq. rewrite Hurl. intros Heq. apply Hsuffix.
    rewrite <- (append_assoc apiUrl "/users/me" suffix) in Heq.
    now apply append_same_length in Heq. }
  cbn [orb]. now rewrite Bool.andb_false_r.
Qed.

End Forwarding.

Lemma intercept_keeps_the_rest_witness :
  Http.getAll
    (headers (intercept "/api" {[ tokenKey := "abc" ]} callerAuthorized))
    "X-TRACE"
  = Some ["7"].
Proof.
  destruct (intercept_keeps_the_rest "/api" unit {[ tokenKey := "abc" ]}
              callerAuthorized) as (_ & _ & _ & Hrest).
  destruct (Hrest "X-TRACE") as [Hvalues _].
  - intros Hname. vm_compute in Hname. discriminate Hname.
  - rewrite Hvalues. reflexivity.
Defined.

Lemma intercept_authorization_header_witness :
  Http.getAll (headers callerAuthorized) "authorization"
  = Some ["Basic dXNlcg=="]
  /\ Http.getAll
       (headers (intercept "/api" {[ tokenKey := "abc" ]} callerAuthorized))
       "authorization"
     = Some ["Bearer abc"].
Proof.
  split; [reflexivity|].
  rewrite (intercept_authorization_header "/api" unit {[ tokenKey := "abc" ]}
             callerAuthorized "authorization" eq_refl).
  reflexivity.
Defined.

Lemma token_sent_wherever_path_matches_witness :
  Http.get
    (headers (intercept "/api" {[ tokenKey := "abc" ]} foreignMySolutions))
    "Authorization"
  = Some "Bearer abc".
Proof.
  apply (token_sent_wherever_path_matches "/api" unit {[ tokenKey := "abc" ]}
           foreignMySolutions "abc" "https://elsewhere.example" "drafts").
  - reflexivity.
  - discriminate.
  - reflexivity.
Defined.

Lemma users_me_with_suffix_not_authorized_witness :
  intercept "/api" {[ tokenKey := "abc" ]} currentUserWithQuery
  = currentUserWithQuery.
Proof.
  apply (users_me_with_suffix_not_authorized "/api" unit {[ tokenKey := "abc" ]}
           currentUserWithQuery "?fields=name").
  - reflexivity.
  - discriminate.
  - reflexivity.
  - discriminate.
  - discriminate.
Defined.

End AuthInterceptorMore.

(** ** The severity look-ups *)

Module SeverityFacts.
Import JsString SolutionDetail.

(** Membership in a list that is written out. *)
Ltac in_list :=
  repeat first [apply list_elem_of_here | apply list_elem_of_further].

Lemma getProperty_list (entries : list (string * string)) (key : string) :
  key ∉ entries.*1 -> key ∉ objectPrototypeMembers ->
  getProperty (list_to_map entries) key = None.
Proof.
  intros Hown Hproto. unfold getProperty.
  rewrite (proj1 (not_elem_of_list_to_map _ _) Hown).
  now rewrite bool_decide_eq_false_2.
Qed.

Lemma getProperty_values (entries : list (string * string)) (key : string)
    (looked : Property) :
  getProperty (list_to_map entries) key = Some looked ->
  key ∉ objectPrototypeMembers ->
  exists value, looked = Text value /\ value ∈ entries.*2.
Proof.
  unfold getProperty. intros Hget Hproto.
  destruct (list_to_map entries !! key) as [value|] eqn:Hown.
  - injection Hget as <-. exists value. split; [reflexivity|].
    apply elem_of_list_to_map_2 in Hown.
    apply list_elem_of_fmap. now exists (key, value).
  - rewrite bool_decide_eq_false_2 in Hget by assumption. discriminate.
Qed.

Lemma lower_case_differs (key name : string) :
  hasLowerCaseLetter key = true -> hasLowerCaseLetter name = false ->
  key <> name.
Proof. intros Hkey Hname ->. congruence. Qed.

(** Whatever name is asked for, unless it is the name of a member of
    [Object.prototype], each of the three look-ups answers with one of
    [success], [info], [warning] and [danger]: never with [secondary] or
    [contrast], and never with nothing. *)
Theorem severity_is_a_table_colour (lookup : string -> Property)
    (key : string) :
  lookup ∈ severityLookups -> key ∉ objectPrototypeMembers ->
  exists colour, lookup key = Text colour /\ colour ∈ tableSeverities.
Proof.
  intros Hlookup Hproto.
  assert (forall entries : list (string * string),
            Forall (fun v => truthy v = true /\ v ∈ tableSeverities) entries.*2 ->
            exists colour,
              orInfo (getProperty (list_to_map entries) key) = Text colour
              /\ colour ∈ tableSeverities) as Htable.
  { intros entries Hvalues.
    destruct (getProperty (list_to_map entries) key) as [looked|] eqn:Hget.
    - destruct (getProperty_values _ _ _ Hget Hproto) as (value & -> & Hin).
      rewrite Forall_forall in Hvalues. destruct (Hvalues _ Hin) as [Htruthy ?].
      exists value. cbn [orInfo]. now rewrite Htruthy.
    - exists "info". split; [reflexivity|]. unfold tableSeverities. in_list. }
  unfold severityLookups in Hlookup.
  apply elem_of_cons in Hlookup as [-> | Hlookup];
    [|apply elem_of_cons in Hlookup as [-> | Hlookup];
      [|apply list_elem_of_singleton in Hlookup as ->]];
    apply Htable; repeat constructor; unfold tableSeverities; in_list.
Qed.

(** The names are matched as written, upper case: a name with a lower-case
    letter in it, other than the name of a member of [Object.prototype],
    gets [info] from each of the three look-ups. *)
Theorem severity_names_are_case_sensitive (lookup : string -> Property)
    (key : string) :
  lookup ∈ severityLookups -> key ∉ objectPrototypeMembers ->
  hasLowerCaseLetter key = true ->
  lookup key = Text "info".
Proof.
  intros Hlookup Hproto Hlower.
  assert (forall entries : list (string * string),
            Forall (fun name => hasLowerCaseLetter name = false) entries.*1 ->
            orInfo (getProperty (list_to_map entries) key) = Text "info")
    as Htable.
  { intros entries Hnames. rewrite getProperty_list; [reflexivity| |assumption].
    intros Hin. rewrite Forall_forall in Hnames.
    now apply (lower_case_differs key key Hlower (Hnames _ Hin)). }
  unfold severityLookups in Hlookup.
  apply elem_of_cons in Hlookup as [-> | Hlookup];
    [|apply elem_of_cons in Hlookup as [-> | Hlookup];
      [|apply list_elem_of_singleton in Hlookup as ->]];
    apply Htable; repeat constructor.
Qed.

(** For the name of a member of [Object.prototype] ([constructor],
    [toString], ...) none of the three look-ups answers with a severity:
    the map has no such key of its own, the inherited member is found and,
    being truthy, is what [||] returns. *)
Theorem severity_of_inherited_name (lookup : string -> Property)
    (key : string) :
  lookup ∈ severityLookups -> key ∈ objectPrototypeMembers ->
  lookup key = InheritedMember key.
Proof.
  intros Hlookup Hproto.
  assert (forall entries : list (string * string),
            Forall (fun name => hasLowerCaseLetter name = false) entries.*1 ->
            orInfo (getProperty (list_to_map entries) key) = InheritedMember key)
    as Htable.
  { intros entries Hnames. unfold getProperty.
    assert (hasLowerCaseLetter key = true) as Hlower.
    { unfold objectPrototypeMembers in Hproto.
      repeat (apply elem_of_cons in Hproto as [-> | Hproto]; [reflexivity|]).
      now apply elem_of_nil in Hproto. }
    rewrite (proj1 (not_elem_of_list_to_map _ _)).
    - now rewrite bool_decide_eq_true_2.
    - intros Hin. rewrite Forall_forall in Hnames.
      now apply (lower_case_differs key key Hlower (Hnames _ Hin)). }
  unfold severityLookups in Hlookup.
  apply elem_of_cons in Hlookup as [-> | Hlookup];
    [|apply elem_of_cons in Hlookup as [-> | Hlookup];
      [|apply list_elem_of_singleton in Hlookup as ->]];
    apply Htable; repeat constructor.
Qed.

Lemma severity_is_a_table_colour_witness :
  exists colour,
    getStageSeverity "ARCHIVED" = Text colour /\ colour ∈ tableSeverities.
Proof.
  apply (severity_is_a_table_colour getStageSeverity "ARCHIVED").
  - unfold severityLookups. apply elem_of_cons. now left.
  - unfold objectPrototypeMembers. intros Hin.
    repeat (apply elem_of_cons in Hin as [Hin | Hin]; [discriminate Hin|]).
    now apply elem_of_nil in Hin.
Defined.

Lemma severity_names_are_case_sensitive_witness :
  getStageSeverity "Production" = Text "info".
Proof.
  apply (severity_names_are_case_sensitive getStageSeverity "Production").
  - unfold severityLookups. apply elem_of_cons. now left.
  - unfold objectPrototypeMembers. intros Hin.
    repeat (apply elem_of_cons in Hin as [Hin | Hin]; [discriminate Hin|]).
    now apply elem_of_nil in Hin.
  - reflexivity.
Defined.

Lemma severity_of_inherited_name_witness :
  getRecommendStatusSeverity "constructor" = InheritedMember "constructor".
Proof.
  apply (severity_of_inherited_name getRecommendStatusSeverity "constructor").
  - unfold severityLookups. apply elem_of_cons. right. apply elem_of_cons. now left.
  - unfold objectPrototypeMembers. apply elem_of_cons. now left.
Defined.

End SeverityFacts.

(** ** Lists of live subscriptions *)

Module SubscriptionLists.
Import SolutionDetail.

Lemma subscriptions_ok_add (subs : list Subscription) (next : nat)
    (flag : bool) (s : Subscription) :
  subscriptions_ok subs next flag ->
  subscriptionId s = next ->
  (if isRatingsFetch s then flag = false /\ untilDestroy s = false else True) ->
  subscriptions_ok (subs ++ [s]) (S next)
    (if isRatingsFetch s then true else flag).
Proof.
  intros (Hnodup & Hfresh & Hguard & Hcount) Hid Hkind. repeat split.
  - rewrite map_app. apply NoDup_app. split; [exact Hnodup|]. split.
    + intros i Hi Hin. cbn in Hin. apply list_elem_of_singleton in Hin. subst i.
      apply list_elem_of_In, in_map_iff in Hi as (s0 & Hs0 & Hin0).
      specialize (Hfresh s0 Hin0). lia.
    + cbn. apply NoDup_singleton.
  - intros s0 Hin. apply in_app_or in Hin as [Hin | [<- | []]].
    + specialize (Hfresh s0 Hin). lia.
    + lia.
  - intros s0 Hin Hr. apply in_app_or in Hin as [Hin | [<- | []]].
    + now apply Hguard.
    + rewrite Hr in Hkind. tauto.
  - rewrite List.filter_app, length_app, Hcount. cbn [List.filter].
    destruct (isRatingsFetch s); cbn [length].
    + destruct Hkind as [-> _]. reflexivity.
    + destruct flag; reflexivity.
Qed.

Lemma find_split (subs : list Subscription) (id : nat) (s : Subscription) :
  NoDup (List.map subscriptionId subs) ->
  List.find (hasId id) subs = Some s ->
  exists before after,
    subs = before ++ s :: after
    /\ withoutId id subs = before ++ after.
Proof.
  induction subs as [|s0 subs IH]; cbn [List.find]; [discriminate|].
  intros Hnodup Hfind. cbn [List.map] in Hnodup.
  apply NoDup_cons in Hnodup as [Hnotin Hnodup].
  unfold withoutId. cbn [List.filter].
  destruct (hasId id s0) eqn:Hhas.
  - injection Hfind as <-. exists [], subs. split; [reflexivity|].
    cbn [negb app]. fold (withoutId id subs).
    unfold withoutId. apply forallb_filter_id, forallb_forall.
    intros s1 Hin. unfold hasId in *. apply Nat.eqb_eq in Hhas. subst id.
    apply Bool.negb_true_iff, Nat.eqb_neq. intros Heq. apply Hnotin.
    apply list_elem_of_In, in_map_iff. now exists s1.
  - destruct (IH Hnodup Hfind) as (before & after & -> & Hrest).
    exists (s0 :: before), after. split; [reflexivity|].
    cbn [negb app]. fold (withoutId id (before ++ s :: after)).
    now rewrite Hrest.
Qed.

Lemma subscriptions_ok_remove (subs : list Subscription) (next : nat)
    (flag : bool) (id : nat) (s : Subscription) :
  subscriptions_ok subs next flag ->
  List.find (hasId id) subs = Some s ->
  subscriptions_ok (withoutId id subs) next
    (if isRatingsFetch s then false else flag).
Proof.
  intros (Hnodup & Hfresh & Hguard & Hcount) Hfind.
  destruct (find_split subs id s Hnodup Hfind) as (before & after & -> & ->).
  repeat split.
  - rewrite map_app in *. cbn [List.map] in Hnodup.
    apply NoDup_app in Hnodup as (H1 & H2 & H3).
    apply NoDup_cons in H3 as [_ H3].
    apply NoDup_app. repeat split; [exact H1| |exact H3].
    intros i Hi Hin. apply (H2 i Hi). now right.
  - intros s0 Hin. apply Hfresh. apply in_app_or in Hin as [|]; apply in_or_app;
      [now left | right; now right].
  - intros s0 Hin. apply Hguard. apply in_app_or in Hin as [|]; apply in_or_app;
      [now left | right; now right].
  - rewrite List.filter_app, length_app in *. cbn [List.filter] in Hcount.
    destruct (isRatingsFetch s); cbn [length] in Hcount;
      destruct flag; lia.
Qed.

Lemma find_app_old (subs added : list Subscription) (id : nat)
    (s : Subscription) :
  List.find (hasId id) subs = Some s ->
  List.find (hasId id) (subs ++ added) = Some s.
Proof.
  induction subs as [|s0 subs IH]; cbn [List.find app]; [discriminate|].
  destruct (hasId id s0); auto.
Qed.

Lemma subscriptions_ok_kept (subs : list Subscription) (next : nat)
    (flag : bool) :
  subscriptions_ok subs next flag ->
  subscriptions_ok (List.filter keptOnDestroy subs) next flag.
Proof.
  intros (Hnodup & Hfresh & Hguard & Hcount). repeat split.
  - clear -Hnodup. induction subs as [|s subs IH]; cbn; [constructor|].
    cbn in Hnodup. apply NoDup_cons in Hnodup as [Hnotin Hnodup].
    destruct (keptOnDestroy s); [|auto]. cbn. apply NoDup_cons. split; [|auto].
    intros Hin. apply Hnotin.
    apply list_elem_of_In, in_map_iff in Hin as (s1 & Hid & Hin).
    apply filter_In in Hin as [Hin _].
    apply list_elem_of_In, in_map_iff. now exists s1.
  - intros s Hin. apply filter_In in Hin as [Hin _]. now apply Hfresh.
  - intros s Hin. apply filter_In in Hin as [Hin _]. now apply Hguard.
  - rewrite <- Hcount. f_equal. clear -Hguard.
    induction subs as [|s subs IH]; [reflexivity|]. cbn [List.filter].
    assert (forall s0, In s0 subs -> isRatingsFetch s0 = true ->
                       untilDestroy s0 = false) as Hrest
      by (intros s0 Hin; apply Hguard; now right).
    destruct (isRatingsFetch s) eqn:Hr.
    + unfold keptOnDestroy at 1. rewrite (Hguard s (or_introl eq_refl) Hr).
      cbn [negb List.filter]. rewrite Hr. now rewrite IH.
    + destruct (keptOnDestroy s); cbn [List.filter]; rewrite ?Hr; auto.
Qed.

End SubscriptionLists.

(** ** The solution-detail component: the rest of its methods *)

Module SolutionDetailMore.
Import JsString JsStringFacts SolutionDetail SolutionDetailSpec.

(** [project], in a hypothesis. *)
Ltac project_in H :=
  cbn [this messages dialogs requests subscriptions nextSubscription
       routeParamsSubscribed currentUserSubscribed
       destroyStopped userCommentsPage ratingsPage solution officialComments
       userComments ratings loading loadingOfficialComments
       loadingUserComments loadingRatings hasMoreUserComments hasMoreRatings
       totalOfficialComments totalUserComments totalRatings activeTab
       newComment newRating isLoggedIn
       with_this with_messages with_dialogs with_requests with_subscriptions
       with_nextSubscription with_routeParamsSubscribed
       with_currentUserSubscribed
       set_destroyStopped set_userCommentsPage set_ratingsPage set_solution
       set_officialComments set_userComments set_ratings set_loading
       set_loadingOfficialComments set_loadingUserComments set_loadingRatings
       set_hasMoreUserComments set_hasMoreRatings set_totalOfficialComments
       set_totalUserComments set_totalRatings set_activeTab set_newComment
       set_newRating set_isLoggedIn feedState] in H.

Section Methods.

Variable apiUrl : string.
Context {Solution Comment Rating : Type}.

Local Abbreviation World := (World Solution Comment Rating).
Local Abbreviation Notification := (Notification Solution Comment Rating).
Local Abbreviation Response := (Response Solution Comment Rating).
Local Abbreviation M := (M Solution Comment Rating).
Implicit Types (w : World) (slug : string) (n : Notification) (r : Response)
  (e : HttpErrorResponse) (s : Subscription).

Lemma app_three {A} (l : list A) (a b c : A) :
  l ++ [a; b; c] = ((l ++ [a]) ++ [b]) ++ [c].
Proof. now rewrite <- !app_assoc. Qed.

Lemma app_four {A} (l : list A) (a b c d : A) :
  l ++ [a; b; c; d] = (((l ++ [a]) ++ [b]) ++ [c]) ++ [d].
Proof. now rewrite <- !app_assoc. Qed.

(** *** Navigation *)

(** When the router reports a solution, the component asks for the
    solution and for the first page of official and of user comments, and
    for the first page of ratings unless a ratings fetch is in flight; all
    three feeds are emptied and both page counters are 0, while the
    solution shown before stays until the answer arrives. *)
Theorem route_change_requests w slug :
  routeParamsSubscribed w = true ->
  let w' := exec (routeParams_emit apiUrl slug) w in
  requests w'
  = requests w ++
      [HttpGet (apiUrl +:+ "/solutions/" +:+ slug);
       GetSolutionComments slug 0 10 OFFICIAL;
       GetSolutionComments slug 0 10 USER] ++
      (if loadingRatings (this w) then [] else [GetSolutionRatings slug 0 10])
  /\ officialComments (this w') = [] /\ userComments (this w') = []
  /\ ratings (this w') = []
  /\ userCommentsPage (this w') = 0 /\ ratingsPage (this w') = 0
  /\ solution (this w') = solution (this w).
Proof.
  open_world w. intros ->. destruct ldRatings; cbn [app]; cbv zeta.
  - rewrite app_three. by_computation.
  - rewrite app_four. by_computation.
Qed.

(** A reset of the ratings feed made while a ratings fetch is in flight
    empties the feed but asks the server nothing, and the answer to the
    earlier fetch is then taken as the first page: after moving from one
    solution to another in that way the feed holds the ratings of the
    solution left behind, and those of the new one were never requested. *)
Theorem ratings_of_previous_solution w (previous current : string)
    (data : list Rating) (total : Z) :
  ids_fresh w -> loadingRatings (this w) = false ->
  let w1 := exec (loadRatings previous false) w in
  let w2 := exec (loadRatings current false) w1 in
  let w3 :=
    exec (deliver apiUrl (nextSubscription w)
            (Next (RatingsResponse true data total))) w2 in
  requests w2 = requests w ++ [GetSolutionRatings previous 0 10]
  /\ requests w3 = requests w2
  /\ ratings (this w3) = data
  /\ ratingsPage (this w3) = 1
  /\ loadingRatings (this w3) = false.
Proof.
  intros Hfresh Hidle. cbv zeta.
  pose proof (fun l => find_skip_old w (nextSubscription w) l Hfresh
                         (Nat.le_refl _)) as Hfind.
  clear Hfresh. open_world w. subst ldRatings.
  rewrite deliver_eq. repeat evaluate_call.
  cbn [subscriptions]. rewrite Hfind. resolve_ids.
  cbn [accepts handler]. by_computation.
Qed.

(** *** Teardown *)

Lemma finalize_withoutLoading (h : Handler) w :
  withoutLoading (exec (finalize h) w) = withoutLoading w.
Proof. open_world w. destruct h; by_computation. Qed.

Lemma finalize_all_withoutLoading (l : list Subscription) w :
  withoutLoading (exec (forEach l (fun s => finalize (handler s))) w)
  = withoutLoading w.
Proof.
  revert w. induction l as [|s l IH]; intros w; cbn [forEach].
  - reflexivity.
  - now rewrite exec_seq, IH, finalize_withoutLoading.
Qed.

Lemma ngOnDestroy_eq w :
  destroyStopped (this w) = false ->
  exec ngOnDestroy w
  = exec (modifyThis (set_destroyStopped true))
      (exec (forEach (List.filter untilDestroy (subscriptions w))
               (fun s => finalize (handler s)))
         (with_subscriptions (List.filter keptOnDestroy (subscriptions w))
            (with_routeParamsSubscribed false w))).
Proof.
  open_world w. intros ->. unfold ngOnDestroy. unfold_bind.
  cbv beta iota delta [modifyWorld]. project.
  match goal with
  | |- snd (let (_, w') := forEach ?l ?f ?W in _) = _ =>
      destruct (forEach l f W) as [u w1]
  end.
  reflexivity.
Qed.

(** How the world looks after teardown, up to the loading flags. *)
Lemma ngOnDestroy_withoutLoading w :
  destroyStopped (this w) = false ->
  withoutLoading (exec ngOnDestroy w)
  = withoutLoading
      (with_this (set_destroyStopped true (this w))
         (with_subscriptions (List.filter keptOnDestroy (subscriptions w))
            (with_routeParamsSubscribed false w))).
Proof.
  intros Hlive. rewrite (ngOnDestroy_eq w Hlive).
  match goal with
  | |- withoutLoading (exec _ ?W) = _ =>
      pose proof (finalize_all_withoutLoading
                    (List.filter untilDestroy (subscriptions w))
                    (with_subscriptions
                       (List.filter keptOnDestroy (subscriptions w))
                       (with_routeParamsSubscribed false w))) as Hloop;
      generalize dependent W
  end.
  intros w1 Hloop.
  transitivity
    (with_this (set_destroyStopped true (this (withoutLoading w1)))
       (withoutLoading w1)).
  - open_world w1. by_computation.
  - rewrite Hloop. open_world w. by_computation.
Qed.

Lemma ngOnDestroy_fields w :
  destroyStopped (this w) = false ->
  let w' := exec ngOnDestroy w in
  subscriptions w' = List.filter keptOnDestroy (subscriptions w)
  /\ routeParamsSubscribed w' = false
  /\ currentUserSubscribed w' = currentUserSubscribed w
  /\ requests w' = requests w
  /\ messages w' = messages w
  /\ dialogs w' = dialogs w
  /\ feedState (this w') = feedState (this w)
  /\ destroyStopped (this w') = true.
Proof.
  intros Hlive. cbv zeta.
  pose proof (ngOnDestroy_withoutLoading w Hlive) as Heq.
  generalize dependent (exec ngOnDestroy w). intros w' Heq.
  unfold withoutLoading in Heq.
  pose proof (f_equal subscriptions Heq) as Hsubs.
  pose proof (f_equal routeParamsSubscribed Heq) as Hroute.
  pose proof (f_equal currentUserSubscribed Heq) as Huser.
  pose proof (f_equal requests Heq) as Hreqs.
  pose proof (f_equal messages Heq) as Hmsgs.
  pose proof (f_equal dialogs Heq) as Hdlgs.
  pose proof (f_equal (fun x => feedState (this x)) Heq) as Hfeed.
  pose proof (f_equal (fun x => destroyStopped (this x)) Heq) as Hstopped.
  project_in Hsubs. project_in Hroute. project_in Huser. project_in Hreqs.
  project_in Hmsgs. project_in Hdlgs. project_in Hfeed. project_in Hstopped.
  repeat split; assumption.
Qed.


(** After teardown a route change is ignored, while a change of the
    logged-in user is still taken over into [isLoggedIn]: the subscription
    to [currentUser$] is not ended by [ngOnDestroy]. *)
Theorem emissions_after_destroy w slug (present : bool) :
  destroyStopped (this w) = false ->
  currentUserSubscribed w = true ->
  let w' := exec ngOnDestroy w in
  exec (routeParams_emit apiUrl slug) w' = w'
  /\ isLoggedIn (this (exec (currentUser_emit present) w')) = present.
Proof.
  intros Hlive Huser. cbv zeta.
  destruct (ngOnDestroy_fields w Hlive) as (_ & Hroute & Hstill & _).
  rewrite Huser in Hstill. clear Hlive Huser.
  generalize dependent (exec ngOnDestroy w). intros w' Hroute Hstill.
  revert Hroute Hstill. open_world w'. intros -> ->. by_computation.
Qed.

(** *** Submissions *)

(** A draft that is not blank is sent exactly as typed, with the white
    space around it that the blank test trims away; whether anybody is
    logged in, or an earlier submission is still unanswered, plays no part.
    Nothing else changes until the answer comes: the draft stays in the
    box. *)
Theorem submitComment_sends_draft w slug :
  ~ whitespace_only (newComment (this w)) ->
  let w' := exec (submitComment slug) w in
  requests w' = requests w ++ [AddComment slug (newComment (this w))]
  /\ this w' = this w
  /\ messages w' = messages w
  /\ dialogs w' = dialogs w.
Proof.
  intros Hdraft. cbv zeta.
  assert (truthy (trim (newComment (this w))) = true) as Htruthy.
  { destruct (truthy (trim (newComment (this w)))) eqn:H; [reflexivity|].
    now apply trim_falsy_iff in H. }
  assert (exec (submitComment slug) w
          = exec (subscribe (AddComment slug (newComment (this w)))
                    (OnCommentAdded slug) false) w) as ->.
  { unfold submitComment. unfold_bind. now rewrite Htruthy. }
  clear. open_world w. by_computation.
Qed.

(** A rating is sent as it stands in the form whenever somebody is logged
    in and the score is not 0: a negative score or one above five and an
    empty comment go out like any other.  The form keeps its content until
    the answer comes. *)
Theorem submitRating_sends_form w slug :
  isLoggedIn (this w) = true -> score (newRating (this w)) <> 0 ->
  let w' := exec (submitRating slug) w in
  requests w'
  = requests w ++
      [AddRating slug (score (newRating (this w)))
         (comment (newRating (this w)))]
  /\ this w' = this w
  /\ messages w' = messages w.
Proof.
  intros Hlogged Hscore. cbv zeta. apply Z.eqb_neq in Hscore.
  assert (exec (submitRating slug) w
          = exec (subscribe
                    (AddRating slug (score (newRating (this w)))
                       (comment (newRating (this w))))
                    (OnRatingAdded slug) false) w) as ->.
  { unfold submitRating. unfold_bind. rewrite Hlogged. cbn [negb].
    unfold_bind. now rewrite Hscore. }
  clear. open_world w. by_computation.
Qed.

(** When the server accepts a comment, the success toast is shown, the
    draft is cleared and both comment feeds are loaded again from offset 0;
    ratings and solution are left alone. *)
Theorem comment_accepted w id s slug :
  List.find (hasId id) (subscriptions w) = Some s ->
  handler s = OnCommentAdded slug ->
  let w' := exec (deliver apiUrl id (Next (SubmitResponse true))) w in
  messages w'
  = messages w ++
      [{| severity := "success"; summary := "Success";
          detail := "Comment added successfully" |}]
  /\ newComment (this w') = ""
  /\ requests w'
     = requests w ++
         [GetSolutionComments slug 0 10 OFFICIAL;
          GetSolutionComments slug 0 10 USER]
  /\ officialComments (this w') = [] /\ userComments (this w') = []
  /\ userCommentsPage (this w') = 0
  /\ ratings (this w') = ratings (this w)
  /\ solution (this w') = solution (this w).
Proof.
  intros Hfind Hhandler. cbv zeta.
  rewrite deliver_eq, Hfind, Hhandler. cbn [accepts]. rewrite app_two.
  open_world w. by_computation.
Qed.

(** When the server accepts a rating, the success toast is shown, the
    rating form is reset to score 0 and an empty comment, the ratings feed
    is emptied, and the solution is asked for again; the first page of
    ratings is asked for as well, unless a ratings fetch is in flight. *)
Theorem rating_accepted w id s slug :
  List.find (hasId id) (subscriptions w) = Some s ->
  handler s = OnRatingAdded slug ->
  let w' := exec (deliver apiUrl id (Next (SubmitResponse true))) w in
  messages w'
  = messages w ++
      [{| severity := "success"; summary := "Success";
          detail := "Rating submitted successfully" |}]
  /\ newRating (this w') = {| score := 0; comment := "" |}
  /\ ratings (this w') = [] /\ ratingsPage (this w') = 0
  /\ requests w'
     = requests w ++
         (if loadingRatings (this w) then []
          else [GetSolutionRatings slug 0 10]) ++
         [HttpGet (apiUrl +:+ "/solutions/" +:+ slug)].
Proof.
  intros Hfind Hhandler. cbv zeta.
  rewrite deliver_eq, Hfind, Hhandler. cbn [accepts].
  open_world w. destruct ldRatings; cbn [app]; rewrite ?app_two;
    by_computation.
Qed.

(** When the submission of a rating fails, the error toast carries the
    detail the server sent if there is one and it is not empty, and
    "Failed to submit rating" otherwise; no login dialog is opened, whatever
    the status, 401 included. *)
Theorem rating_rejected w id s slug e :
  List.find (hasId id) (subscriptions w) = Some s ->
  handler s = OnRatingAdded slug ->
  let w' := exec (deliver apiUrl id (Error e)) w in
  messages w'
  = messages w ++
      [errorToast
         (match errorDetail e with
          | Some text => if truthy text then text else "Failed to submit rating"
          | None => "Failed to submit rating"
          end)]
  /\ dialogs w' = dialogs w.
Proof.
  intros Hfind Hhandler. cbv zeta.
  rewrite deliver_eq, Hfind, Hhandler. cbn [accepts].
  destruct e as [st [text|]]; [destruct text|]; open_world w; by_computation.
Qed.

(** A submission that fails, of a comment or of a rating, changes no field
    of the component and issues no request: what was typed is still there
    to be sent again. *)
Theorem failed_submission_keeps_form w id s e :
  List.find (hasId id) (subscriptions w) = Some s ->
  (exists slug, handler s = OnCommentAdded slug \/ handler s = OnRatingAdded slug) ->
  let w' := exec (deliver apiUrl id (Error e)) w in
  this w' = this w /\ requests w' = requests w.
Proof.
  intros Hfind (slug & [Hhandler | Hhandler]); cbv zeta;
    rewrite deliver_eq, Hfind, Hhandler; cbn [accepts].
  - destruct e as [st detail]. unfold_bind.
    cbv beta iota delta [error submitComment_error status].
    destruct (st =? 401); open_world w; by_computation.
  - destruct e as [st [text|]]; [destruct text|]; open_world w; by_computation.
Qed.

(** *** The solution *)

(** Whatever the answer to the solution fetch, [loading] is false after it;
    the solution shown is replaced only by an answer with [success] true,
    and a failure or an unsuccessful answer leaves the one shown before. *)
Theorem solution_answer w id s n :
  List.find (hasId id) (subscriptions w) = Some s ->
  handler s = OnSolution ->
  accepts OnSolution n = true ->
  let w' := exec (deliver apiUrl id n) w in
  loading (this w') = false
  /\ solution (this w')
     = match n with
       | Next (SolutionResponse true data) => Some data
       | _ => solution (this w)
       end
  /\ feedState (this w') = feedState (this w).
Proof.
  intros Hfind Hhandler Haccepts. cbv zeta.
  rewrite deliver_eq, Hfind, Hhandler, Haccepts.
  destruct n as [[[] data | ? ? ? | ? ? ? | ?] | e];
    try discriminate Haccepts; open_world w; by_computation.
Qed.

End Methods.
(** *** Examples *)

(** Both sides of an instance of a theorem are computed before the stated
    consequence is read off. *)
Ltac read_off H := vm_compute in H; vm_compute; intuition.

Lemma route_change_requests_witness :
  requests (exec (routeParams_emit "/api" "redis") routeOpened)
  = requests routeOpened ++
      [HttpGet "/api/solutions/redis";
       GetSolutionComments "redis" 0 10 OFFICIAL;
       GetSolutionComments "redis" 0 10 USER].
Proof.
  assert (routeParamsSubscribed routeOpened = true) as Hheard
    by (vm_compute; reflexivity).
  pose proof (route_change_requests "/api" routeOpened "redis" Hheard) as H.
  read_off H.
Defined.

Lemma ratings_of_previous_solution_witness :
  let w2 := exec (loadRatings "kafka" false;; loadRatings "redis" false)
              (initialWorld : ExampleWorld) in
  let w3 := exec (deliver "/api" 0 (Next (RatingsResponse true [7; 8]%nat 2)))
              w2 in
  requests w3 = [GetSolutionRatings "kafka" 0 10]
  /\ ratings (this w3) = [7; 8]%nat.
Proof.
  assert (ids_fresh (initialWorld : ExampleWorld)) as Hfresh
    by (apply ids_fresh_check; vm_compute; reflexivity).
  assert (loadingRatings (this (initialWorld : ExampleWorld)) = false) as Hidle
    by (vm_compute; reflexivity).
  pose proof (ratings_of_previous_solution "/api" initialWorld "kafka" "redis"
                [7; 8]%nat 2 Hfresh Hidle) as H.
  read_off H.
Defined.


Lemma emissions_after_destroy_witness :
  isLoggedIn (this (exec (currentUser_emit true) (exec ngOnDestroy routeOpened)))
  = true.
Proof.
  assert (destroyStopped (this routeOpened) = false) as Hlive
    by (vm_compute; reflexivity).
  assert (currentUserSubscribed routeOpened = true) as Hheard
    by (vm_compute; reflexivity).
  pose proof (emissions_after_destroy "/api" routeOpened "redis" true
                Hlive Hheard) as H.
  read_off H.
Defined.

Lemma submitComment_sends_draft_witness :
  requests (exec (submitComment "kafka")
              (with_this (set_newComment "  fine  " initialComponent)
                 initialWorld : ExampleWorld))
  = [AddComment "kafka" "  fine  "].
Proof.
  assert (~ whitespace_only
            (newComment
               (this (with_this (set_newComment "  fine  " initialComponent)
                        initialWorld : ExampleWorld)))) as Hdraft.
  { vm_compute. intros (_ & _ & Hletter & _). discriminate Hletter. }
  pose proof (submitComment_sends_draft _ "kafka" Hdraft) as H.
  read_off H.
Defined.

Lemma submitRating_sends_form_witness :
  requests pendingRating = [AddRating "kafka" 4 "solid"].
Proof.
  pose proof (submitRating_sends_form
                (with_this
                   (set_isLoggedIn true
                      (set_newRating {| score := 4; comment := "solid" |}
                         initialComponent))
                   initialWorld : ExampleWorld) "kafka" eq_refl
                ltac:(discriminate)) as H.
  read_off H.
Defined.

Lemma comment_accepted_witness :
  newComment (this pendingComment) = "Works well for us"
  /\ newComment
       (this (exec (deliver "/api" 0 (Next (SubmitResponse true)))
                pendingComment))
     = "".
Proof.
  assert (List.find (hasId 0) (subscriptions pendingComment)
          = Some {| subscriptionId := 0;
                    request := AddComment "kafka" "Works well for us";
                    handler := OnCommentAdded "kafka";
                    untilDestroy := false |}) as Hfind
    by (vm_compute; reflexivity).
  pose proof (comment_accepted "/api" pendingComment 0 _ "kafka" Hfind eq_refl)
    as H.
  read_off H.
Defined.

Lemma rating_accepted_witness :
  newRating (this pendingRating) = {| score := 4; comment := "solid" |}
  /\ newRating
       (this (exec (deliver "/api" 0 (Next (SubmitResponse true)))
                pendingRating))
     = {| score := 0; comment := "" |}.
Proof.
  assert (List.find (hasId 0) (subscriptions pendingRating)
          = Some {| subscriptionId := 0;
                    request := AddRating "kafka" 4 "solid";
                    handler := OnRatingAdded "kafka";
                    untilDestroy := false |}) as Hfind
    by (vm_compute; reflexivity).
  pose proof (rating_accepted "/api" pendingRating 0 _ "kafka" Hfind eq_refl)
    as H.
  read_off H.
Defined.

Lemma rating_rejected_witness :
  let w' :=
    exec (deliver "/api" 0
            (Error {| status := 401; errorDetail := Some "Already rated" |}))
      pendingRating in
  messages w' = [errorToast "Already rated"] /\ dialogs w' = [].
Proof.
  assert (List.find (hasId 0) (subscriptions pendingRating)
          = Some {| subscriptionId := 0;
                    request := AddRating "kafka" 4 "solid";
                    handler := OnRatingAdded "kafka";
                    untilDestroy := false |}) as Hfind
    by (vm_compute; reflexivity).
  pose proof (rating_rejected "/api" pendingRating 0 _ "kafka"
                {| status := 401; errorDetail := Some "Already rated" |}
                Hfind eq_refl) as H.
  read_off H.
Defined.

Lemma failed_submission_keeps_form_witness :
  newComment
    (this (exec (deliver "/api" 0
                   (Error {| status := 500; errorDetail := None |}))
             pendingComment))
  = "Works well for us".
Proof.
  assert (List.find (hasId 0) (subscriptions pendingComment)
          = Some {| subscriptionId := 0;
                    request := AddComment "kafka" "Works well for us";
                    handler := OnCommentAdded "kafka";
                    untilDestroy := false |}) as Hfind
    by (vm_compute; reflexivity).
  pose proof (failed_submission_keeps_form "/api" pendingComment 0 _
                {| status := 500; errorDetail := None |} Hfind
                (ex_intro _ "kafka" (or_introl eq_refl))) as H.
  apply proj1, (f_equal newComment) in H.
  read_off H.
Defined.

Lemma solution_answer_witness :
  let w' :=
    exec (deliver "/api" 0 (Error {| status := 404; errorDetail := None |}))
      routeOpened in
  loading (this routeOpened) = true
  /\ loading (this w') = false /\ solution (this w') = None.
Proof.
  assert (List.find (hasId 0) (subscriptions routeOpened)
          = Some {| subscriptionId := 0;
                    request := HttpGet "/api/solutions/kafka";
                    handler := OnSolution; untilDestroy := false |}) as Hfind
    by (vm_compute; reflexivity).
  pose proof (solution_answer "/api" routeOpened 0 _
                (Error {| status := 404; errorDetail := None |})
                Hfind eq_refl eq_refl) as H.
  read_off H.
Defined.

End SolutionDetailMore.

(** ** What holds in every world the component can reach *)

Module Reachable.
Import JsString JsStringFacts SolutionDetail SolutionDetailSpec
  SubscriptionLists SolutionDetailMore.

(** Run a call on an explicit world as far as it goes, leaving the tests
    on field variables in place. *)
Ltac evaluate_world :=
  match goal with
  | |- ?I ?t =>
      let v := eval lazy -[app Z.mul Z.add Z.ltb Z.eqb Z.of_nat Z.to_nat length
                            List.find List.filter hasId withoutId take drop
                            slice Nat.eqb truthy trim orDefault] in t in
      tryif constr_eq t v then fail
      else replace t with v by (vm_compute; reflexivity)
  end.

(** Split on a test that blocks the run. *)
Ltac split_on_test :=
  match goal with
  | |- context [if ?c then _ else _] =>
      lazymatch c with
      | context [match _ with _ => _ end] => fail
      | _ => destruct c eqn:?
      end
  end.

Ltac run_call := repeat first [progress evaluate_world | split_on_test].

Section Invariants.

Variable apiUrl : string.
Context {Solution Comment Rating : Type}.

Local Abbreviation World := (World Solution Comment Rating).
Local Abbreviation Notification := (Notification Solution Comment Rating).
Local Abbreviation M := (M Solution Comment Rating).
Local Abbreviation Action := (Action Solution Comment Rating).
Implicit Types (w : World) (slug : string).

Lemma run_invariant (I : World -> Prop) :
  I initialWorld ->
  (forall (a : Action) w, I w -> I (exec (perform apiUrl a) w)) ->
  forall actions : list Action, I (exec (run apiUrl actions) initialWorld).
Proof.
  intros Hinit Hstep actions. unfold run.
  generalize (initialWorld : World) Hinit.
  induction actions as [|a actions IH]; intros w Hw; cbn [forEach].
  - exact Hw.
  - rewrite exec_seq. apply IH, Hstep, Hw.
Qed.

(** *** Page requests are well-formed *)

Ltac page_request :=
  cbn [page_request_ok];
  first [ exact I
        | split; reflexivity
        | split; [reflexivity|]; eexists; (split; [|reflexivity]); lia ].

Ltac requests_ok_done :=
  unfold requests_ok; project;
  repeat split; try lia;
  rewrite ?Forall_app; repeat split; try assumption;
  repeat (apply Forall_cons; split; [page_request|]); try apply Forall_nil;
  try exact I.

Lemma requests_ok_perform (a : Action) w :
  requests_ok w -> requests_ok (exec (perform apiUrl a) w).
Proof.
  destruct a as [ | | slug | present | newTab | text | picked
                | slug loadMore | slug loadMore | slug | slug | | id n];
    cbn [perform].
  13: { (* an answer arrives *)
    rewrite deliver_eq.
    destruct (List.find (hasId id) (subscriptions w)) as [[sid rq h guarded]|];
      [|auto].
    cbn [handler]. destruct (accepts h n) eqn:Haccepts; [|auto].
    open_world w. intros Hok. unfold requests_ok in Hok. project_in Hok.
    destruct Hok as (Hc & Hr & Hreqs).
    destruct h, n as [[ok ? | ok ? ? | ok ? ? | ok] | [st detail]];
      try discriminate Haccepts; try destruct ok;
      run_call; requests_ok_done. }
  2: { (* teardown *)
    intros Hok. destruct (destroyStopped (this w)) eqn:Hstopped.
    - replace (exec ngOnDestroy w) with w; [exact Hok|].
      revert Hstopped. clear. open_world w. intros ->. by_computation.
    - destruct (ngOnDestroy_fields w Hstopped)
        as (_ & _ & _ & Hreqs & _ & _ & Hfeed & _).
      revert Hok Hreqs Hfeed.
      generalize (exec ngOnDestroy w). intros w'. unfold requests_ok, feedState.
      intros (Hc & Hr & Hall) -> Hfeed.
      injection Hfeed as _ _ _ -> -> _ _ _ _ _. auto. }
  all: open_world w; destruct rating as [chosen remark];
       intros Hok; unfold requests_ok in Hok; project_in Hok;
       destruct Hok as (Hc & Hr & Hreqs); run_call; requests_ok_done.
Qed.

(** Whatever happens to a new component, in any order, every request for
    a page that it issues asks for 10 items from an offset that is a
    multiple of 10 and not negative, and official comments are asked for
    from offset 0 only. *)
Theorem page_requests_well_formed (actions : list Action) :
  Forall page_request_ok (requests (exec (run apiUrl actions) initialWorld)).
Proof.
  apply (run_invariant requests_ok).
  - unfold requests_ok. cbn. repeat split; try lia. constructor.
  - apply requests_ok_perform.
Qed.

(** *** At most one ratings fetch in flight *)

Lemma subscriptions_ok_add_eq (subs : list Subscription) (next : nat)
    (flag flag' : bool) (s : Subscription) :
  subscriptions_ok subs next flag ->
  subscriptionId s = next ->
  (if isRatingsFetch s then flag = false /\ untilDestroy s = false else True) ->
  flag' = (if isRatingsFetch s then true else flag) ->
  subscriptions_ok (subs ++ [s]) (S next) flag'.
Proof. intros Hok Hid Hkind ->. now apply subscriptions_ok_add. Qed.

Lemma subscriptions_ok_remove_eq (subs : list Subscription) (next : nat)
    (flag flag' : bool) (id : nat) (s : Subscription) :
  subscriptions_ok subs next flag ->
  List.find (hasId id) subs = Some s ->
  flag' = (if isRatingsFetch s then false else flag) ->
  subscriptions_ok (withoutId id subs) next flag'.
Proof. intros Hok Hfind ->. now apply subscriptions_ok_remove with (s := s). Qed.

(** Rebuild the list of live subscriptions from the one before the call. *)
Ltac in_flight_list :=
  lazymatch goal with
  | |- subscriptions_ok (withoutId _ _) _ _ =>
      eapply subscriptions_ok_remove_eq;
      [ in_flight_list
      | repeat apply find_app_old; eassumption
      | reflexivity ]
  | |- subscriptions_ok (_ ++ [_]) _ _ =>
      eapply subscriptions_ok_add_eq;
      [ in_flight_list | reflexivity | cbn; auto | reflexivity ]
  | |- subscriptions_ok _ _ _ => eassumption
  end.

Ltac in_flight_done := unfold ratings_in_flight_ok; project; in_flight_list.

Lemma finalize_all_loadingRatings (l : list Subscription) w :
  Forall (fun s => isRatingsFetch s = false) l ->
  loadingRatings (this (exec (forEach l (fun s => finalize (handler s))) w))
  = loadingRatings (this w).
Proof.
  intros Hl. revert w. induction Hl as [|s l Hs Hl IH]; intros w;
    cbn [forEach]; [reflexivity|].
  rewrite exec_seq, IH. unfold isRatingsFetch in Hs. clear -Hs.
  open_world w. destruct (handler s); try discriminate Hs; reflexivity.
Qed.

Lemma ratings_in_flight_perform (a : Action) w :
  ratings_in_flight_ok w -> ratings_in_flight_ok (exec (perform apiUrl a) w).
Proof.
  destruct a as [ | | slug | present | newTab | text | picked
                | slug loadMore | slug loadMore | slug | slug | | id n];
    cbn [perform].
  13: { (* an answer arrives *)
    rewrite deliver_eq.
    destruct (List.find (hasId id) (subscriptions w))
      as [[sid rq h guarded]|] eqn:Hfind; [|auto].
    cbn [handler]. destruct (accepts h n) eqn:Haccepts; [|auto].
    revert Hfind. open_world w. intros Hfind Hok.
    unfold ratings_in_flight_ok in Hok. project_in Hok.
    destruct h, n as [[ok ? | ok ? ? | ok ? ? | ok] | [st detail]];
      try discriminate Haccepts; try destruct ok;
      run_call; in_flight_done. }
  2: { (* teardown *)
    intros Hok. destruct (destroyStopped (this w)) eqn:Hstopped.
    - replace (exec ngOnDestroy w) with w; [exact Hok|].
      revert Hstopped. clear. open_world w. intros ->. by_computation.
    - unfold ratings_in_flight_ok in *.
      destruct (ngOnDestroy_fields w Hstopped) as (-> & _).
      pose proof (f_equal nextSubscription (ngOnDestroy_withoutLoading w Hstopped))
        as Hnext.
      unfold withoutLoading in Hnext. project_in Hnext. rewrite Hnext.
      assert (loadingRatings (this (exec ngOnDestroy w))
              = loadingRatings (this w)) as ->.
      { rewrite (ngOnDestroy_eq w Hstopped).
        match goal with
        | |- loadingRatings (this (exec _ ?W)) = _ =>
            transitivity (loadingRatings (this W));
            [generalize W; clear; intros w1; open_world w1; reflexivity|]
        end.
        rewrite finalize_all_loadingRatings; [reflexivity|].
        apply Forall_forall. intros s Hin.
        apply list_elem_of_In, filter_In in Hin as [Hin Hguarded].
        destruct Hok as (_ & _ & Hguard & _).
        destruct (isRatingsFetch s) eqn:Hkind; [|reflexivity].
        rewrite (Hguard s Hin Hkind) in Hguarded. discriminate. }
      now apply subscriptions_ok_kept. }
  all: open_world w; destruct rating as [chosen remark];
       intros Hok; unfold ratings_in_flight_ok in Hok; project_in Hok;
       run_call; in_flight_done.
Qed.

(** Whatever happens to a new component, in any order, at most one
    ratings fetch is outstanding at any time, and [loadingRatings] is true
    exactly when there is one. *)
Theorem one_ratings_fetch_in_flight (actions : list Action) :
  let w := exec (run apiUrl actions) initialWorld in
  (length (List.filter isRatingsFetch (subscriptions w)) <= 1)%nat
  /\ (loadingRatings (this w) = true
      <-> exists s, In s (subscriptions w) /\ handler s = OnRatings).
Proof.
  cbv zeta.
  assert (ratings_in_flight_ok (exec (run apiUrl actions) initialWorld))
    as (_ & _ & _ & Hcount).
  { apply (run_invariant ratings_in_flight_ok).
    - repeat split; cbn; try constructor; intros s [].
    - apply ratings_in_flight_perform. }
  generalize dependent (exec (run apiUrl actions) initialWorld). intros w Hcount.
  split; [destruct (loadingRatings (this w)); lia|].
  split.
  - intros Hflag. rewrite Hflag in Hcount.
    destruct (List.filter isRatingsFetch (subscriptions w)) as [|s l] eqn:Hl;
      [discriminate|].
    assert (In s (List.filter isRatingsFetch (subscriptions w))) as Hin
      by (rewrite Hl; now left).
    apply filter_In in Hin as [Hin Hkind]. exists s. split; [exact Hin|].
    unfold isRatingsFetch in Hkind. now destruct (handler s).
  - intros (s & Hin & Hkind).
    assert (In s (List.filter isRatingsFetch (subscriptions w))) as Hfiltered
      by (apply filter_In; split; [exact Hin|]; unfold isRatingsFetch;
          now rewrite Hkind).
    destruct (loadingRatings (this w)); [reflexivity|].
    destruct (List.filter isRatingsFetch (subscriptions w)); [destruct Hfiltered|].
    discriminate.
Qed.

End Invariants.
End Reachable.

(** ** Pages of a feed asked for in sequence *)

Module SequentialPaging.
Import JsString JsStringFacts SolutionDetail SolutionDetailSpec
  SubscriptionLists SolutionDetailMore Reachable.

Lemma find_withoutId (subs : list Subscription) (id other : nat) :
  id <> other ->
  List.find (hasId id) (withoutId other subs) = List.find (hasId id) subs.
Proof.
  intros Hne. unfold withoutId.
  induction subs as [|s subs IH]; cbn [List.filter List.find]; [reflexivity|].
  destruct (hasId other s) eqn:Hother; cbn [negb List.find].
  - assert (hasId id s = false) as ->; [|exact IH].
    unfold hasId in *. apply Nat.eqb_eq in Hother. apply Nat.eqb_neq. lia.
  - now rewrite IH.
Qed.

Lemma withoutId_incl (subs : list Subscription) (id : nat) :
  incl (withoutId id subs) subs.
Proof. apply incl_filter. Qed.

Section Paging.

Variable apiUrl : string.
Context {Solution Comment Rating : Type}.
Variables (officialList userList : list Comment) (ratingList : list Rating).

Local Abbreviation World := (World Solution Comment Rating).
Local Abbreviation Component := (Component Solution Comment Rating).
Local Abbreviation Notification := (Notification Solution Comment Rating).
Local Abbreviation M := (M Solution Comment Rating).
Local Abbreviation Action := (Action Solution Comment Rating).
Local Abbreviation server := (listServer officialList userList ratingList).
Local Abbreviation respond :=
  (fun s : Subscription =>
     match server (request s) with
     | Some n => deliver apiUrl (subscriptionId s) n
     | None => mret tt
     end).
Implicit Types (w : World) (slug : string) (s : Subscription).

Lemma forEach_app {A} (l l' : list A) (f : A -> M unit) w :
  exec (forEach (l ++ l') f) w = exec (forEach l' f) (exec (forEach l f) w).
Proof.
  revert w. induction l as [|a l IH]; intros w; cbn [app forEach].
  - reflexivity.
  - now rewrite !exec_seq, IH.
Qed.

(** *** One answer *)

(** An answer of the list server reaches at most the subscription it is
    addressed to, and touches a feed only through the handler of that
    feed. *)
Lemma respond_effect s0 w :
  let w' := exec (respond s0) w in
  nextSubscription w' = nextSubscription w
  /\ (subscriptions w' = subscriptions w
      \/ subscriptions w' = withoutId (subscriptionId s0) (subscriptions w))
  /\ ((forall s, List.find (hasId (subscriptionId s0)) (subscriptions w) = Some s ->
                 handler s <> OnRatings) ->
      ratingsFeed (this w') = ratingsFeed (this w))
  /\ ((forall s, List.find (hasId (subscriptionId s0)) (subscriptions w) = Some s ->
                 handler s <> OnUserComments) ->
      userCommentsFeed (this w') = userCommentsFeed (this w)).
Proof.
  cbv beta zeta.
  destruct (request s0) as [u | sl skip limit [|] | sl text | sl skip limit
                           | sl sc text]; cbn [listServer];
    try (repeat split; auto; fail).
  all: rewrite deliver_eq;
    destruct (List.find (hasId (subscriptionId s0)) (subscriptions w))
      as [s|] eqn:Hfind; [|repeat split; auto];
    destruct (handler s) eqn:Hhandler; cbn [accepts];
    try (repeat split; auto; fail).
  all: split; [clear; open_world w; by_computation|];
    (split; [right; clear; open_world w; by_computation|]);
    split; intros Hne;
    first [ exfalso; now apply (Hne s)
          | clear; open_world w; by_computation ].
Qed.

(** *** A round of answers *)

Section Elsewhere.

Context {T : Type} (h : Handler) (view : Component -> T).

Hypothesis respond_keeps : forall s0 w,
  (forall s, List.find (hasId (subscriptionId s0)) (subscriptions w) = Some s ->
             handler s <> h) ->
  view (this (exec (respond s0) w)) = view (this w).

(** Answers that reach no subscription with handler [h] leave the feed
    of [h] as it is. *)
Lemma respond_list (l : list Subscription) w :
  (forall s0 s, In s0 l -> In s (subscriptions w) ->
                subscriptionId s = subscriptionId s0 -> handler s <> h) ->
  let w' := exec (forEach l respond) w in
  view (this w') = view (this w)
  /\ nextSubscription w' = nextSubscription w
  /\ List.incl (subscriptions w') (subscriptions w)
  /\ (forall id, (forall s0, In s0 l -> subscriptionId s0 <> id) ->
        List.find (hasId id) (subscriptions w')
        = List.find (hasId id) (subscriptions w)).
Proof.
  revert w. induction l as [|a l IH]; intros w Hother; cbn [forEach].
  - repeat split; auto. apply incl_refl.
  - cbv zeta. rewrite exec_seq.
    destruct (respond_effect a w) as (Hnext & Hsubs & _ & _).
    pose proof (respond_keeps a w) as Hview.
    assert (List.incl (subscriptions (exec (respond a) w)) (subscriptions w))
      as Hincl.
    { destruct Hsubs as [-> | ->]; [apply incl_refl | apply withoutId_incl]. }
    destruct (IH (exec (respond a) w)) as (Hview' & Hnext' & Hincl' & Hfind').
    { intros s0 s Hin0 Hin. apply Hother; [now right | now apply Hincl]. }
    repeat split.
    + rewrite Hview'. apply Hview. intros s Hfind.
      apply find_some in Hfind as [Hin Hid].
      apply (Hother a s); [now left | exact Hin |].
      unfold hasId in Hid. now apply Nat.eqb_eq in Hid.
    + congruence.
    + intros s Hin. apply Hincl, Hincl', Hin.
    + intros id Hid. rewrite Hfind' by (intros s0 Hin; apply Hid; now right).
      destruct Hsubs as [-> | ->]; [reflexivity|]. apply find_withoutId.
      intros Heq. now apply (Hid a (or_introl eq_refl)).
Qed.

(** A round of answers in which exactly one, that to [new], reaches a
    subscription with handler [h]. *)
Lemma respond_through (l1 l2 : list Subscription) (new : Subscription) w
    (after : T) :
  (forall s, In s (subscriptions w) -> handler s = h ->
             subscriptionId s = subscriptionId new) ->
  (forall s0, In s0 l1 -> subscriptionId s0 <> subscriptionId new) ->
  List.find (hasId (subscriptionId new)) (subscriptions w) = Some new ->
  (forall w0,
     List.find (hasId (subscriptionId new)) (subscriptions w0) = Some new ->
     view (this w0) = view (this w) ->
     let w1 := exec (respond new) w0 in
     view (this w1) = after
     /\ subscriptions w1 = withoutId (subscriptionId new) (subscriptions w0)
     /\ nextSubscription w1 = nextSubscription w0) ->
  let w' := exec (forEach (l1 ++ new :: l2) respond) w in
  view (this w') = after
  /\ nextSubscription w' = nextSubscription w
  /\ List.incl (subscriptions w') (subscriptions w)
  /\ (forall s, In s (subscriptions w') -> handler s <> h).
Proof.
  intros Honly Hold Hfind Hhit. cbv zeta.
  rewrite forEach_app. cbn [forEach]. rewrite exec_seq.
  destruct (respond_list l1 w) as (Hview1 & Hnext1 & Hincl1 & Hfind1).
  { intros s0 s Hin0 Hin Hid Hh. apply (Hold s0 Hin0). rewrite <- Hid.
    now apply Honly. }
  remember (exec (forEach l1 respond) w) as wa eqn:Ewa. clear Ewa.
  destruct (Hhit wa) as (Hview2 & Hsubs2 & Hnext2).
  { rewrite Hfind1; auto. }
  { assumption. }
  cbv beta zeta in Hview2, Hsubs2, Hnext2. cbv beta.
  remember (exec (match server (request new) with
                   | Some n => deliver apiUrl (subscriptionId new) n
                   | None => mret tt
                   end) wa) as wb eqn:Ewb. clear Ewb.
  assert (forall s, In s (subscriptions wb) -> handler s <> h) as Hnone.
  { intros s Hin Hh. rewrite Hsubs2 in Hin. unfold withoutId in Hin.
    apply filter_In in Hin as [Hin Hid].
    assert (subscriptionId s = subscriptionId new) as Heq
      by (apply Honly; auto).
    unfold hasId in Hid. rewrite Heq, Nat.eqb_refl in Hid. discriminate. }
  destruct (respond_list l2 wb) as (Hview3 & Hnext3 & Hincl3 & _).
  { intros s0 s _ Hin _. now apply Hnone. }
  repeat split.
  - now rewrite Hview3.
  - congruence.
  - intros s Hin. apply Hincl1. apply Hincl3 in Hin. rewrite Hsubs2 in Hin.
    now apply withoutId_incl in Hin.
  - intros s Hin. apply Hnone. now apply Hincl3.
Qed.

End Elsewhere.

Lemma ratings_elsewhere s0 w :
  (forall s, List.find (hasId (subscriptionId s0)) (subscriptions w) = Some s ->
             handler s <> OnRatings) ->
  ratingsFeed (this (exec (respond s0) w)) = ratingsFeed (this w).
Proof. apply (respond_effect s0 w). Qed.

Lemma userComments_elsewhere s0 w :
  (forall s, List.find (hasId (subscriptionId s0)) (subscriptions w) = Some s ->
             handler s <> OnUserComments) ->
  userCommentsFeed (this (exec (respond s0) w)) = userCommentsFeed (this w).
Proof. apply (respond_effect s0 w). Qed.

(** *** What a call and its answer do to a feed *)

Lemma deliver_ratings_effect w id s (data : list Rating) (total : Z) :
  List.find (hasId id) (subscriptions w) = Some s ->
  handler s = OnRatings ->
  let w' := exec (deliver apiUrl id (Next (RatingsResponse true data total))) w in
  ratingsFeed (this w')
  = (ratings (this w) ++ data, ratingsPage (this w) + 1,
     Z.of_nat (length (ratings (this w))) + Z.of_nat (length data) <? total,
     total, false)
  /\ subscriptions w' = withoutId id (subscriptions w)
  /\ nextSubscription w' = nextSubscription w.
Proof.
  intros Hfind Hhandler. cbv zeta.
  rewrite deliver_eq, Hfind, Hhandler. cbn [accepts].
  clear. open_world w. by_computation.
Qed.

Lemma deliver_userComments_effect w id s (data : list Comment) (total : Z) :
  List.find (hasId id) (subscriptions w) = Some s ->
  handler s = OnUserComments ->
  let w' := exec (deliver apiUrl id (Next (CommentsResponse true data total))) w in
  userCommentsFeed (this w')
  = (userComments (this w) ++ data, userCommentsPage (this w) + 1,
     Z.of_nat (length (userComments (this w))) + Z.of_nat (length data) <? total,
     total)
  /\ subscriptions w' = withoutId id (subscriptions w)
  /\ nextSubscription w' = nextSubscription w.
Proof.
  intros Hfind Hhandler. cbv zeta.
  rewrite deliver_eq, Hfind, Hhandler. cbn [accepts].
  clear. open_world w. by_computation.
Qed.

Lemma loadRatings_more_effect w slug :
  hasMoreRatings (this w) = true -> loadingRatings (this w) = false ->
  let w' := exec (loadRatings slug true) w in
  subscriptions w'
  = subscriptions w ++
      [{| subscriptionId := nextSubscription w;
          request := GetSolutionRatings slug (ratingsPage (this w) * 10) 10;
          handler := OnRatings; untilDestroy := false |}]
  /\ nextSubscription w' = S (nextSubscription w)
  /\ ratingsFeed (this w')
     = (ratings (this w), ratingsPage (this w), true, totalRatings (this w),
        true).
Proof. open_world w. intros -> ->. by_computation. Qed.

Lemma loadRatings_more_nothing w slug :
  hasMoreRatings (this w) = false ->
  exec (loadRatings slug true) w = w.
Proof. open_world w. intros ->. by_computation. Qed.

Lemma loadComments_more_effect w slug :
  let w' := exec (loadComments slug true) w in
  subscriptions w'
  = subscriptions w ++
      [{| subscriptionId := nextSubscription w;
          request := GetSolutionComments slug 0 10 OFFICIAL;
          handler := OnOfficialComments; untilDestroy := true |};
       {| subscriptionId := S (nextSubscription w);
          request :=
            GetSolutionComments slug (userCommentsPage (this w) * 10) 10 USER;
          handler := OnUserComments; untilDestroy := true |}]
  /\ nextSubscription w' = S (S (nextSubscription w))
  /\ userCommentsFeed (this w') = userCommentsFeed (this w).
Proof. open_world w. cbv zeta. rewrite app_two. by_computation. Qed.

Lemma keeps_answered (m : M unit) :
  keeps_ids_fresh m -> keeps_ids_fresh (answered apiUrl server m).
Proof.
  intros Hm. unfold answered. apply keeps_bind; [exact Hm|]. intros _.
  unfold respondAll. apply keeps_bind; [apply keeps_gets|]. intros subs.
  apply keeps_forEach. intros s.
  destruct (server (request s)); [apply keeps_deliver | apply keeps_ret].
Qed.

(** A load-more call of the ratings feed and the round of answers after
    it. *)
Lemma answered_more_ratings w slug :
  ids_fresh w -> ratings_idle w ->
  let w' := exec (answered apiUrl server (loadRatings slug true)) w in
  let data := slice ratingList (ratingsPage (this w) * 10) 10 in
  ids_fresh w'
  /\ (forall s, In s (subscriptions w') -> handler s <> OnRatings)
  /\ ratingsFeed (this w')
     = if hasMoreRatings (this w)
       then (ratings (this w) ++ data, ratingsPage (this w) + 1,
             Z.of_nat (length (ratings (this w))) + Z.of_nat (length data)
             <? Z.of_nat (length ratingList),
             Z.of_nat (length ratingList), false)
       else ratingsFeed (this w).
Proof.
  intros Hfresh [Hidle Hnone]. cbv zeta. split.
  { now apply keeps_answered; [apply keeps_loadRatings|]. }
  unfold answered. rewrite exec_seq, respondAll_eq.
  destruct (hasMoreRatings (this w)) eqn:Hmore.
  - destruct (loadRatings_more_effect w slug Hmore Hidle)
      as (Hsubs & Hnext & Hfeed).
    cbv zeta in Hsubs, Hnext, Hfeed.
    remember (exec (loadRatings slug true) w) as w1 eqn:E. clear E.
    rewrite Hsubs.
    match goal with
    | |- context [forEach (_ ++ [?new]) _] =>
        destruct (respond_through OnRatings ratingsFeed ratings_elsewhere
                    (subscriptions w) [] new w1
                    (ratings (this w) ++
                       slice ratingList (ratingsPage (this w) * 10) 10,
                     ratingsPage (this w) + 1,
                     Z.of_nat (length (ratings (this w)))
                     + Z.of_nat
                         (length
                            (slice ratingList (ratingsPage (this w) * 10) 10))
                     <? Z.of_nat (length ratingList),
                     Z.of_nat (length ratingList), false))
          as (Hview & _ & Hincl & Hnone')
    end.
    + intros s Hin Hh. rewrite Hsubs in Hin.
      apply in_app_or in Hin as [Hin | [<- | []]]; [|reflexivity].
      now apply Hnone in Hin.
    + intros s0 Hin. cbn [subscriptionId]. specialize (Hfresh s0 Hin). lia.
    + rewrite Hsubs, find_skip_old by (auto; cbn [subscriptionId]; lia).
      cbn [List.find subscriptionId]. unfold hasId. cbn [subscriptionId].
      now rewrite Nat.eqb_refl.
    + intros w0 Hfind0 Hview0. cbv beta zeta.
      cbn [request listServer subscriptionId] in *.
      destruct (deliver_ratings_effect w0 _ _
                  (slice ratingList (ratingsPage (this w) * 10) 10)
                  (Z.of_nat (length ratingList)) Hfind0 eq_refl)
        as (Hf & Hs & Hn).
      rewrite Hfeed in Hview0. unfold ratingsFeed in Hview0.
      injection Hview0 as Hitems Hpage _ _ _.
      rewrite Hf, Hs, Hn, Hitems, Hpage. auto.
    + split; [exact Hnone' | exact Hview].
  - rewrite loadRatings_more_nothing by assumption.
    destruct (respond_list OnRatings ratingsFeed ratings_elsewhere
                (subscriptions w) w) as (Hview & _ & Hincl & _).
    { intros s0 s _ Hin _. now apply Hnone. }
    split; [|exact Hview]. intros s Hin. now apply Hnone, Hincl.
Qed.

(** A load-more call of the comments and the round of answers after it. *)
Lemma answered_more_comments w slug :
  ids_fresh w -> userComments_idle w ->
  let w' := exec (answered apiUrl server (loadComments slug true)) w in
  let data := slice userList (userCommentsPage (this w) * 10) 10 in
  ids_fresh w'
  /\ userComments_idle w'
  /\ userCommentsFeed (this w')
     = (userComments (this w) ++ data, userCommentsPage (this w) + 1,
        Z.of_nat (length (userComments (this w))) + Z.of_nat (length data)
        <? Z.of_nat (length userList),
        Z.of_nat (length userList)).
Proof.
  intros Hfresh Hnone. cbv zeta. split.
  { now apply keeps_answered; [apply keeps_loadComments|]. }
  unfold answered. rewrite exec_seq, respondAll_eq.
  destruct (loadComments_more_effect w slug) as (Hsubs & Hnext & Hfeed).
  cbv zeta in Hsubs, Hnext, Hfeed.
  remember (exec (loadComments slug true) w) as w1 eqn:E. clear E.
  rewrite app_two in Hsubs. rewrite Hsubs.
  match goal with
  | |- context [forEach (?l1 ++ [?new]) _] =>
      destruct (respond_through OnUserComments userCommentsFeed
                  userComments_elsewhere l1 [] new w1
                  (userComments (this w) ++
                     slice userList (userCommentsPage (this w) * 10) 10,
                   userCommentsPage (this w) + 1,
                   Z.of_nat (length (userComments (this w)))
                   + Z.of_nat
                       (length
                          (slice userList (userCommentsPage (this w) * 10) 10))
                   <? Z.of_nat (length userList),
                   Z.of_nat (length userList)))
        as (Hview & _ & Hincl & Hnone')
  end.
  - intros s Hin Hh. rewrite Hsubs in Hin.
    apply in_app_or in Hin as [Hin | [<- | []]]; [|reflexivity].
    apply in_app_or in Hin as [Hin | [<- | []]]; [|discriminate Hh].
    now apply Hnone in Hin.
  - intros s0 Hin. cbn [subscriptionId].
    apply in_app_or in Hin as [Hin | [<- | []]]; cbn [subscriptionId]; [|lia].
    specialize (Hfresh s0 Hin). lia.
  - rewrite Hsubs, <- app_two, find_skip_old
      by (auto; cbn [subscriptionId]; lia).
    cbn [List.find subscriptionId]. unfold hasId. cbn [subscriptionId].
    now rewrite self_eqb_succ, Nat.eqb_refl.
  - intros w0 Hfind0 Hview0. cbv beta zeta.
    cbn [request listServer subscriptionId] in *.
    destruct (deliver_userComments_effect w0 _ _
                (slice userList (userCommentsPage (this w) * 10) 10)
                (Z.of_nat (length userList)) Hfind0 eq_refl)
      as (Hf & Hs & Hn).
    rewrite Hfeed in Hview0. unfold userCommentsFeed in Hview0.
    injection Hview0 as Hitems Hpage _ _.
    rewrite Hf, Hs, Hn, Hitems, Hpage. auto.
  - split; [exact Hnone' | exact Hview].
Qed.

(** *** Pages in sequence *)

Lemma ratings_feed_paged w (n : nat) (items : list Rating) (page : Z) :
  ids_fresh w ->
  (forall s, In s (subscriptions w) -> handler s <> OnRatings) ->
  ratingsFeed (this w)
  = (items ++ slice ratingList (page * 10) 10, page + 1,
     Z.of_nat (length items)
     + Z.of_nat (length (slice ratingList (page * 10) 10))
     <? Z.of_nat (length ratingList),
     Z.of_nat (length ratingList), false) ->
  items = take (10 * n)%nat ratingList -> page = Z.of_nat n ->
  ratings_paged ratingList (S n) w.
Proof.
  intros Hfresh Hnone Hfeed Hheld Hasked. unfold ratingsFeed in Hfeed.
  injection Hfeed as Hitems Hpage Hmore Htotal Hloading. subst items page.
  unfold ratings_paged, ratings_idle.
  rewrite Hitems, Hpage, Hmore, Htotal, Hloading.
  rewrite slice_take, hasMore_after_append, slice_take.
  repeat split; auto. lia.
Qed.

Lemma userComments_feed_paged w (n : nat) (items : list Comment) (page : Z) :
  ids_fresh w -> userComments_idle w ->
  userCommentsFeed (this w)
  = (items ++ slice userList (page * 10) 10, page + 1,
     Z.of_nat (length items)
     + Z.of_nat (length (slice userList (page * 10) 10))
     <? Z.of_nat (length userList),
     Z.of_nat (length userList)) ->
  items = take (10 * n)%nat userList -> page = Z.of_nat n ->
  userComments_paged userList (S n) w.
Proof.
  intros Hfresh Hnone Hfeed Hheld Hasked. unfold userCommentsFeed in Hfeed.
  injection Hfeed as Hitems Hpage Hmore Htotal. subst items page.
  unfold userComments_paged.
  rewrite Hitems, Hpage, Hmore, Htotal.
  rewrite slice_take, hasMore_after_append, slice_take.
  repeat split; auto. lia.
Qed.

Lemma ratings_next_page w slug (n : nat) :
  ratings_paged ratingList n w ->
  ratings_paged ratingList (S n)
    (exec (answered apiUrl server (loadRatings slug true)) w).
Proof.
  intros (Hfresh & Hidle & Hitems & Htotal & Hmore & Hpage).
  destruct (answered_more_ratings w slug Hfresh Hidle)
    as (Hfresh' & Hnone' & Hfeed).
  cbv zeta in Hfresh', Hnone', Hfeed.
  remember (exec (answered apiUrl server (loadRatings slug true)) w)
    as w' eqn:E. clear E.
  destruct (hasMoreRatings (this w)) eqn:Hflag.
  - now apply (ratings_feed_paged w' n (ratings (this w)) (ratingsPage (this w)));
      auto.
  - unfold ratingsFeed in Hfeed.
    injection Hfeed as Hitems' Hpage' Hmore' Htotal' Hloading'.
    destruct Hidle as [Hloading _].
    symmetry in Hmore. apply Z.ltb_ge in Hmore.
    rewrite Hitems, length_take in Hmore.
    unfold ratings_paged, ratings_idle.
    rewrite Hitems', Hmore', Htotal', Hloading', Hflag, Hitems.
    repeat split; auto; try discriminate.
    + rewrite !take_ge by lia. reflexivity.
    + symmetry. apply Z.ltb_ge. rewrite length_take. lia.
Qed.

Lemma userComments_next_page w slug (n : nat) :
  userComments_paged userList n w ->
  userComments_paged userList (S n)
    (exec (answered apiUrl server (loadComments slug true)) w).
Proof.
  intros (Hfresh & Hidle & Hitems & Htotal & Hmore & Hpage).
  destruct (answered_more_comments w slug Hfresh Hidle)
    as (Hfresh' & Hnone' & Hfeed).
  now apply (userComments_feed_paged _ n (userComments (this w))
               (userCommentsPage (this w))).
Qed.

Lemma ratings_first_page w slug (first : bool) :
  ids_fresh w -> ratings_idle w ->
  (first = true -> ratings_fresh w) ->
  ratings_paged ratingList 1
    (exec (answered apiUrl server (loadRatings slug first)) w).
Proof.
  intros Hfresh [Hloading Hnone] Hstart.
  set (w0 := with_this
               (set_hasMoreRatings true
                  (set_ratings [] (set_ratingsPage 0 (this w)))) w).
  assert (exec (answered apiUrl server (loadRatings slug first)) w
          = exec (answered apiUrl server (loadRatings slug true)) w0) as ->.
  { unfold answered. rewrite !exec_seq. destruct first.
    - destruct (Hstart eq_refl) as (Hitems & Hpage & Hmore).
      f_equal. f_equal. subst w0. revert Hitems Hpage Hmore. clear.
      open_world w. intros -> -> ->. reflexivity.
    - now rewrite loadRatings_reset_eq. }
  destruct (answered_more_ratings w0 slug) as (Hfresh' & Hnone' & Hfeed).
  { now apply (ids_fresh_same w). }
  { split; [|exact Hnone]. subst w0. clear -Hloading. revert Hloading.
    open_world w. auto. }
  now apply (ratings_feed_paged _ 0 [] 0).
Qed.

Lemma userComments_first_page w slug (first : bool) :
  ids_fresh w -> userComments_idle w ->
  (first = true -> userComments_fresh w) ->
  userComments_paged userList 1
    (exec (answered apiUrl server (loadComments slug first)) w).
Proof.
  intros Hfresh Hnone Hstart.
  set (w0 := with_this
               (set_userComments []
                  (set_officialComments [] (set_userCommentsPage 0 (this w))))
               w).
  assert (exists w1,
            exec (answered apiUrl server (loadComments slug first)) w
            = exec (answered apiUrl server (loadComments slug true)) w1
            /\ ids_fresh w1 /\ userComments_idle w1 /\ userComments_fresh w1)
    as (w1 & -> & Hfresh1 & Hnone1 & Hitems1 & Hpage1).
  { destruct first.
    - exists w. auto.
    - exists w0. unfold answered. rewrite !exec_seq, loadComments_reset_eq.
      repeat split; auto. }
  destruct (answered_more_comments w1 slug Hfresh1 Hnone1)
    as (Hfresh' & Hnone' & Hfeed).
  cbv zeta in Hfeed. rewrite Hitems1, Hpage1 in Hfeed.
  now apply (userComments_feed_paged _ 0 [] 0).
Qed.

Lemma ratings_pages_repeat w slug (k n : nat) :
  ratings_paged ratingList k w ->
  ratings_paged ratingList (k + n)
    (exec (repeatM n (answered apiUrl server (loadRatings slug true))) w).
Proof.
  revert k w. induction n as [|n IH]; intros k w Hpaged.
  - now rewrite Nat.add_0_r.
  - cbn [repeatM]. rewrite exec_seq.
    replace (k + S n)%nat with (S k + n)%nat by lia.
    apply IH. now apply ratings_next_page.
Qed.

Lemma userComments_pages_repeat w slug (k n : nat) :
  userComments_paged userList k w ->
  userComments_paged userList (k + n)
    (exec (repeatM n (answered apiUrl server (loadComments slug true))) w).
Proof.
  revert k w. induction n as [|n IH]; intros k w Hpaged.
  - now rewrite Nat.add_0_r.
  - cbn [repeatM]. rewrite exec_seq.
    replace (k + S n)%nat with (S k + n)%nat by lia.
    apply IH. now apply userComments_next_page.
Qed.

Lemma ratings_paged_invariant w (n : nat) :
  ratings_paged ratingList n w ->
  ratings (this w) = take (10 * n)%nat ratingList /\ ratings_invariant w.
Proof.
  intros (_ & _ & Hitems & Htotal & Hmore & _).
  split; [exact Hitems|]. unfold ratings_invariant, feed_invariant, hasMore_matches.
  rewrite Htotal. split; [exact Hmore|].
  rewrite Hitems, length_take. lia.
Qed.

Lemma userComments_paged_invariant w (n : nat) :
  userComments_paged userList n w ->
  userComments (this w) = take (10 * n)%nat userList
  /\ userComments_invariant w.
Proof.
  intros (_ & _ & Hitems & Htotal & Hmore & _).
  split; [exact Hitems|].
  unfold userComments_invariant, feed_invariant, hasMore_matches.
  rewrite Htotal. split; [exact Hmore|].
  rewrite Hitems, length_take. lia.
Qed.

Lemma ratings_paged_counts w (n : nat) :
  length ratingList = 25%nat ->
  ratings_paged ratingList n w ->
  length (ratings (this w)) = Nat.min (10 * n) 25
  /\ hasMoreRatings (this w) = (Z.of_nat (Nat.min (10 * n) 25) <? 25).
Proof.
  intros Hlen (_ & _ & Hitems & _ & Hmore & _).
  rewrite Hmore, Hitems, length_take, Hlen. split; reflexivity.
Qed.

Lemma userComments_paged_counts w (n : nat) :
  length userList = 25%nat ->
  userComments_paged userList n w ->
  length (userComments (this w)) = Nat.min (10 * n) 25
  /\ hasMoreUserComments (this w) = (Z.of_nat (Nat.min (10 * n) 25) <? 25).
Proof.
  intros Hlen (_ & _ & Hitems & _ & Hmore & _).
  rewrite Hmore, Hitems, length_take, Hlen. split; reflexivity.
Qed.

(** *** The route callback *)

Lemma routeParams_emit_eq w slug :
  routeParamsSubscribed w = true ->
  exec (routeParams_emit apiUrl slug) w
  = exec (loadRatings slug false)
      (exec (loadSolution apiUrl slug;; loadComments slug false) w).
Proof.
  intros Hheard. unfold routeParams_emit, routeParams_next. unfold_bind.
  rewrite Hheard.
  destruct (loadSolution apiUrl slug w) as [[] w1].
  destruct (loadComments slug false w1) as [[] w2]. reflexivity.
Qed.

Lemma route_before_ratings w slug :
  let w' := exec (loadSolution apiUrl slug;; loadComments slug false) w in
  loadingRatings (this w') = loadingRatings (this w)
  /\ subscriptions w'
     = subscriptions w ++
         [{| subscriptionId := nextSubscription w;
             request := HttpGet (apiUrl +:+ "/solutions/" +:+ slug);
             handler := OnSolution; untilDestroy := false |};
          {| subscriptionId := S (nextSubscription w);
             request := GetSolutionComments slug 0 10 OFFICIAL;
             handler := OnOfficialComments; untilDestroy := true |};
          {| subscriptionId := S (S (nextSubscription w));
             request := GetSolutionComments slug 0 10 USER;
             handler := OnUserComments; untilDestroy := true |}].
Proof. open_world w. cbv zeta. rewrite app_three. by_computation. Qed.

Lemma ratings_route_page w slug :
  ids_fresh w -> ratings_idle w -> routeParamsSubscribed w = true ->
  ratings_paged ratingList 1
    (exec (answered apiUrl server (routeParams_emit apiUrl slug)) w).
Proof.
  intros Hfresh [Hloading Hnone] Hheard.
  assert (exec (answered apiUrl server (routeParams_emit apiUrl slug)) w
          = exec (answered apiUrl server (loadRatings slug false))
              (exec (loadSolution apiUrl slug;; loadComments slug false) w))
    as ->.
  { unfold answered. now rewrite !exec_seq, routeParams_emit_eq. }
  destruct (route_before_ratings w slug) as (Hloading' & Hsubs).
  apply ratings_first_page; [| |discriminate].
  - revert Hfresh. apply keeps_bind; [apply keeps_loadSolution|].
    intros _. apply keeps_loadComments.
  - split; [congruence|]. intros s Hin Hh. rewrite Hsubs in Hin.
    apply in_app_or in Hin as [Hin | Hin]; [now apply Hnone in Hin|].
    repeat (destruct Hin as [<- | Hin]; [discriminate Hh|]). destruct Hin.
Qed.

Lemma route_effect w slug :
  routeParamsSubscribed w = true ->
  let w' := exec (routeParams_emit apiUrl slug) w in
  subscriptions w'
  = (subscriptions w ++
       [{| subscriptionId := nextSubscription w;
           request := HttpGet (apiUrl +:+ "/solutions/" +:+ slug);
           handler := OnSolution; untilDestroy := false |};
        {| subscriptionId := S (nextSubscription w);
           request := GetSolutionComments slug 0 10 OFFICIAL;
           handler := OnOfficialComments; untilDestroy := true |}]) ++
      {| subscriptionId := S (S (nextSubscription w));
         request := GetSolutionComments slug (0 * 10) 10 USER;
         handler := OnUserComments; untilDestroy := true |}
      :: (if loadingRatings (this w) then []
          else [{| subscriptionId := S (S (S (nextSubscription w)));
                   request := GetSolutionRatings slug 0 10;
                   handler := OnRatings; untilDestroy := false |}])
  /\ userCommentsFeed (this w')
     = ([], 0, hasMoreUserComments (this w), totalUserComments (this w)).
Proof.
  open_world w. intros ->. cbv zeta. destruct ldRatings.
  - rewrite <- app_assoc. cbn [app]. rewrite app_three. by_computation.
  - rewrite <- app_assoc. cbn [app]. rewrite app_four. by_computation.
Qed.

Lemma userComments_route_page w slug :
  ids_fresh w -> userComments_idle w -> routeParamsSubscribed w = true ->
  userComments_paged userList 1
    (exec (answered apiUrl server (routeParams_emit apiUrl slug)) w).
Proof.
  intros Hfresh Hnone Hheard.
  assert (ids_fresh
            (exec (answered apiUrl server (routeParams_emit apiUrl slug)) w))
    as Hfresh'.
  { apply keeps_answered; [|exact Hfresh].
    apply (keeps_perform apiUrl (RouteChanged slug)). }
  unfold answered in *. rewrite exec_seq, respondAll_eq in *.
  destruct (route_effect w slug Hheard) as (Hsubs & Hfeed).
  cbv zeta in Hsubs, Hfeed.
  remember (exec (routeParams_emit apiUrl slug) w) as w1 eqn:E. clear E.
  rewrite Hsubs in Hfresh' |- *.
  match goal with
  | |- context [forEach (?l1 ++ ?new :: ?l2) _] =>
      destruct (respond_through OnUserComments userCommentsFeed
                  userComments_elsewhere l1 l2 new w1
                  ([] ++ slice userList (0 * 10) 10, 0 + 1,
                   Z.of_nat (length ([] : list Comment))
                   + Z.of_nat (length (slice userList (0 * 10) 10))
                   <? Z.of_nat (length userList),
                   Z.of_nat (length userList)))
        as (Hview & _ & Hincl & Hnone')
  end.
  - intros s Hin Hh. rewrite Hsubs in Hin.
    apply in_app_or in Hin as [Hin | [<- | Hin]]; [| reflexivity |].
    + apply in_app_or in Hin as [Hin | Hin]; [now apply Hnone in Hin|].
      repeat (destruct Hin as [<- | Hin]; [discriminate Hh|]). destruct Hin.
    + destruct (loadingRatings (this w)); [destruct Hin|].
      destruct Hin as [<- | []]. discriminate Hh.
  - intros s0 Hin. cbn [subscriptionId].
    apply in_app_or in Hin as [Hin | Hin].
    + specialize (Hfresh s0 Hin). lia.
    + repeat (destruct Hin as [<- | Hin]; [cbn [subscriptionId]; lia|]).
      destruct Hin.
  - rewrite Hsubs, <- !app_assoc, find_skip_old
      by (auto; cbn [subscriptionId]; lia).
    cbn [app List.find subscriptionId]. unfold hasId. cbn [subscriptionId].
    rewrite Nat.eqb_refl.
    now rewrite (proj2 (Nat.eqb_neq _ _)), (proj2 (Nat.eqb_neq _ _)) by lia.
  - intros w0 Hfind0 Hview0. cbv beta zeta.
    cbn [request listServer subscriptionId] in *.
    destruct (deliver_userComments_effect w0 _ _
                (slice userList (0 * 10) 10)
                (Z.of_nat (length userList)) Hfind0 eq_refl)
      as (Hf & Hs & Hn).
    rewrite Hfeed in Hview0. unfold userCommentsFeed in Hview0.
    injection Hview0 as Hitems Hpage _ _.
    rewrite Hf, Hs, Hn, Hitems, Hpage. auto.
  - now apply (userComments_feed_paged _ 0 [] 0).
Qed.

(** *** In every state the component can reach *)

Lemma reachable_ratings_idle (actions : list Action) :
  let w := exec (run apiUrl actions) initialWorld in
  loadingRatings (this w) = false -> ratings_idle w.
Proof.
  cbv zeta.
  assert (ratings_in_flight_ok (exec (run apiUrl actions) initialWorld))
    as (_ & _ & _ & Hcount).
  { apply (run_invariant apiUrl ratings_in_flight_ok).
    - repeat split; cbn; try constructor; intros s [].
    - apply ratings_in_flight_perform. }
  intros Hloading. rewrite Hloading in Hcount. split; [exact Hloading|].
  intros s Hin Hhandler.
  assert (In s (List.filter isRatingsFetch
                  (subscriptions (exec (run apiUrl actions) initialWorld))))
    as Hfiltered
    by (apply filter_In; split; [exact Hin|]; unfold isRatingsFetch;
        now rewrite Hhandler).
  destruct (List.filter isRatingsFetch
              (subscriptions (exec (run apiUrl actions) initialWorld)));
    [destruct Hfiltered | discriminate Hcount].
Qed.

(** C4, as amended.  After every successful page fetch of the ratings or
    the user-comments feed, [hasMore] equals [items.length < totalCount].
    When the pages of a feed are asked for one after the other, each call
    made when no fetch of that feed is outstanding, starting with a reset
    (a call without [loadMore], or the route callback) or on a feed nothing
    was loaded into, and the server's collection does not change, the feed
    holds the first [10 * calls] items of the collection and also
    [items.length <= totalCount]; this holds in whatever state the
    component has been brought to before, other fetches outstanding or
    not.  In particular three such calls on a collection of 25 leave 10, 20
    and 25 items with [hasMore] true, true and false. *)
Theorem feed_invariant_in_sequence :
  (forall w id s,
     List.find (hasId id) (subscriptions w) = Some s ->
     (forall data total,
        handler s = OnRatings ->
        let w' :=
          exec (deliver apiUrl id (Next (RatingsResponse true data total))) w in
        hasMore_matches (length (ratings (this w'))) (totalRatings (this w'))
          (hasMoreRatings (this w')))
     /\ (forall data total,
           handler s = OnUserComments ->
           let w' :=
             exec (deliver apiUrl id (Next (CommentsResponse true data total)))
               w in
           hasMore_matches (length (userComments (this w')))
             (totalUserComments (this w')) (hasMoreUserComments (this w'))))
  /\ (forall (actions : list Action) slug (first : bool) (calls : nat),
        let w := exec (run apiUrl actions) initialWorld in
        (loadingRatings (this w) = false ->
         (first = true -> ratings_fresh w) ->
         let w' :=
           exec (answered apiUrl server (loadRatings slug first);;
                 repeatM calls (answered apiUrl server (loadRatings slug true)))
             w in
         ratings (this w') = take (10 * S calls)%nat ratingList
         /\ ratings_invariant w')
        /\ (userComments_idle w ->
            (first = true -> userComments_fresh w) ->
            let w' :=
              exec (answered apiUrl server (loadComments slug first);;
                    repeatM calls
                      (answered apiUrl server (loadComments slug true)))
                w in
            userComments (this w') = take (10 * S calls)%nat userList
            /\ userComments_invariant w'))
  /\ (forall (actions : list Action) slug (calls : nat),
        let w := exec (run apiUrl actions) initialWorld in
        routeParamsSubscribed w = true ->
        (loadingRatings (this w) = false ->
         let w' :=
           exec (answered apiUrl server (routeParams_emit apiUrl slug);;
                 repeatM calls (answered apiUrl server (loadRatings slug true)))
             w in
         ratings (this w') = take (10 * S calls)%nat ratingList
         /\ ratings_invariant w')
        /\ (userComments_idle w ->
            let w' :=
              exec (answered apiUrl server (routeParams_emit apiUrl slug);;
                    repeatM calls
                      (answered apiUrl server (loadComments slug true)))
                w in
            userComments (this w') = take (10 * S calls)%nat userList
            /\ userComments_invariant w'))
  /\ (forall slug,
        let more : M unit := answered apiUrl server (loadRatings slug true) in
        let w1 := exec more initialWorld in
        let w2 := exec more w1 in
        let w3 := exec more w2 in
        length ratingList = 25%nat ->
        (length (ratings (this w1)), hasMoreRatings (this w1)) = (10%nat, true)
        /\ (length (ratings (this w2)), hasMoreRatings (this w2)) = (20%nat, true)
        /\ (length (ratings (this w3)), hasMoreRatings (this w3))
           = (25%nat, false))
  /\ (forall slug,
        let more : M unit := answered apiUrl server (loadComments slug true) in
        let w1 := exec more initialWorld in
        let w2 := exec more w1 in
        let w3 := exec more w2 in
        length userList = 25%nat ->
        (length (userComments (this w1)), hasMoreUserComments (this w1))
        = (10%nat, true)
        /\ (length (userComments (this w2)), hasMoreUserComments (this w2))
           = (20%nat, true)
        /\ (length (userComments (this w3)), hasMoreUserComments (this w3))
           = (25%nat, false)).
Proof.
  assert (ids_fresh (initialWorld : World)) as Hnew by (intros s []).
  split; [|split; [|split; [|split]]].
  - intros w id s Hfind. split; intros data total Hhandler.
    + now apply hasMore_after_ratings_page with (s := s).
    + now apply hasMore_after_userComments_page with (s := s).
  - intros actions slug first calls w.
    pose proof (reachable_ids_fresh apiUrl actions) as Hfresh.
    pose proof (reachable_ratings_idle actions) as Hidle.
    fold w in Hfresh, Hidle. cbv zeta in Hidle. clearbody w. split.
    + intros Hloading Hstart. cbv zeta. rewrite exec_seq.
      apply (ratings_paged_invariant _ (S calls)).
      apply (ratings_pages_repeat _ slug 1 calls).
      apply ratings_first_page; auto.
    + intros Hnone Hstart. cbv zeta. rewrite exec_seq.
      apply (userComments_paged_invariant _ (S calls)).
      apply (userComments_pages_repeat _ slug 1 calls).
      now apply userComments_first_page.
  - intros actions slug calls w.
    pose proof (reachable_ids_fresh apiUrl actions) as Hfresh.
    pose proof (reachable_ratings_idle actions) as Hidle.
    fold w in Hfresh, Hidle. cbv zeta in Hidle. clearbody w.
    intros Hheard. split.
    + intros Hloading. cbv zeta. rewrite exec_seq.
      apply (ratings_paged_invariant _ (S calls)).
      apply (ratings_pages_repeat _ slug 1 calls).
      apply ratings_route_page; auto.
    + intros Hnone. cbv zeta. rewrite exec_seq.
      apply (userComments_paged_invariant _ (S calls)).
      apply (userComments_pages_repeat _ slug 1 calls).
      now apply userComments_route_page.
  - intros slug more w1 w2 w3 Hlen.
    assert (ratings_paged ratingList 1 w1) as H1.
    { apply ratings_first_page; [exact Hnew | |].
      - split; [reflexivity | intros s []].
      - intros _. repeat split; reflexivity. }
    assert (ratings_paged ratingList 2 w2) as H2
      by now apply ratings_next_page.
    assert (ratings_paged ratingList 3 w3) as H3
      by now apply ratings_next_page.
    apply (ratings_paged_counts _ _ Hlen) in H1 as [-> ->].
    apply (ratings_paged_counts _ _ Hlen) in H2 as [-> ->].
    apply (ratings_paged_counts _ _ Hlen) in H3 as [-> ->].
    repeat split; reflexivity.
  - intros slug more w1 w2 w3 Hlen.
    assert (userComments_paged userList 1 w1) as H1.
    { apply userComments_first_page; [exact Hnew | intros s [] |].
      intros _. split; reflexivity. }
    assert (userComments_paged userList 2 w2) as H2
      by now apply userComments_next_page.
    assert (userComments_paged userList 3 w3) as H3
      by now apply userComments_next_page.
    apply (userComments_paged_counts _ _ Hlen) in H1 as [-> ->].
    apply (userComments_paged_counts _ _ Hlen) in H2 as [-> ->].
    apply (userComments_paged_counts _ _ Hlen) in H3 as [-> ->].
    repeat split; reflexivity.
Qed.

End Paging.

(** The page is opened on a solution with 25 ratings and 25 user
    comments, and two more pages of either feed are asked for: the feed
    then holds all 25. *)
Lemma feed_invariant_in_sequence_witness :
  let server : Request -> option (Notification unit nat nat) :=
    listServer [] (seq 100 25) (seq 0 25) in
  let w : ExampleWorld := exec (run "/api" [Init]) initialWorld in
  let ratingsLoaded :=
    exec (answered "/api" server (routeParams_emit "/api" "kafka");;
          repeatM 2 (answered "/api" server (loadRatings "kafka" true)))
      w in
  let commentsLoaded :=
    exec (answered "/api" server (routeParams_emit "/api" "kafka");;
          repeatM 2 (answered "/api" server (loadComments "kafka" true)))
      w in
  routeParamsSubscribed w = true
  /\ loadingRatings (this w) = false
  /\ userComments_idle w
  /\ ratings (this ratingsLoaded) = take (10 * 3)%nat (seq 0 25)
  /\ ratings_invariant ratingsLoaded
  /\ userComments (this commentsLoaded) = take (10 * 3)%nat (seq 100 25)
  /\ userComments_invariant commentsLoaded.
Proof.
  destruct (feed_invariant_in_sequence "/api" (Solution := unit)
              ([] : list nat) (seq 100 25) (seq 0 25))
    as (_ & _ & Hroute & _).
  destruct (Hroute [Init] "kafka" 2%nat eq_refl) as [Hratings Hcomments].
  assert (userComments_idle
            (exec (run "/api" [Init]) initialWorld : ExampleWorld)) as Hidle
    by (intros s []).
  split; [reflexivity|]. split; [reflexivity|]. split; [exact Hidle|].
  split; [now apply Hratings|]. split; [now apply Hratings|].
  split; now apply Hcomments.
Defined.

End SequentialPaging.

(** ** What the home page draws *)

Module HomeTemplateFacts.
Import JsString HomeTemplate.

Lemma occurrences_repeated (name other : string) {A} (l : list A) :
  occurrences name (List.map (fun _ => other) l)
  = if String.eqb name other then length l else 0%nat.
Proof.
  unfold occurrences. induction l as [|x l IH]; simpl.
  - now destruct (String.eqb name other).
  - destruct (String.eqb name other) eqn:E; simpl; [now rewrite IH | exact IH].
Qed.

Lemma occurrences_cons (name x : string) (l : list string) :
  occurrences name (x :: l)
  = ((if String.eqb name x then 1 else 0) + occurrences name l)%nat.
Proof. unfold occurrences. simpl. now destruct (String.eqb name x). Qed.

Lemma occurrences_app (name : string) (l l' : list string) :
  occurrences name (l ++ l')
  = (occurrences name l + occurrences name l')%nat.
Proof. unfold occurrences. now rewrite List.filter_app, length_app. Qed.

Section Drawing.
Context {Solution : Type}.
Implicit Types c : HomeComponent Solution.

(** With an empty search box nothing of the search section is drawn,
    whatever the state of the search.  Otherwise exactly one of the
    spinner, the grid of results and the note that nothing was found is
    drawn; the line with the number of results accompanies the grid; and
    the grid holds one card for each result. *)
Theorem search_section_states c :
  let drawn := render c searchResultsSection in
  if truthy (searchKeyword c) then
    (occurrences "div.loading-state" drawn
     + occurrences "div.results-grid" drawn
     + occurrences "div.no-results" drawn = 1)%nat
    /\ occurrences "p" drawn = occurrences "div.results-grid" drawn
    /\ occurrences "app-solution-card" drawn
       = (if loadingSearch c then 0 else length (searchResults c))%nat
  else drawn = [].
Proof.
  destruct c as [keyword busy failure results ? ? ? ?]. cbv zeta.
  cbn [render searchResultsSection searchKeyword loadingSearch searchError
       searchResults].
  destruct (truthy keyword); [|reflexivity].
  cbn [render flat_map app searchKeyword loadingSearch searchError
       searchResults].
  destruct busy, (truthyText failure), results as [|x results];
    cbn [negb andb length Nat.ltb Nat.leb Nat.eqb flat_map render app List.map];
    rewrite ?app_nil_r;
    repeat (rewrite occurrences_cons || rewrite occurrences_app
            || rewrite occurrences_repeated);
    repeat split; vm_compute; reflexivity.
Qed.

(** A search that has failed and left no results is reported twice: the
    error message is drawn and, under it, the note that no solutions were
    found for the keyword. *)
Theorem failed_search_drawn c :
  truthy (searchKeyword c) = true ->
  truthyText (searchError c) = true ->
  loadingSearch c = false ->
  searchResults c = [] ->
  render c searchResultsSection
  = ["section.search-results"; "div.section-header"; "div.error-state";
     "div.no-results"].
Proof.
  destruct c as [keyword busy failure results ? ? ? ?].
  cbn [searchKeyword loadingSearch searchError searchResults].
  intros Hkeyword Hfailure -> ->.
  cbn [render searchResultsSection searchKeyword loadingSearch searchError
       searchResults flat_map app].
  now rewrite Hkeyword, Hfailure.
Qed.

(** In the section of recommended solutions and in that of new ones the
    carousel is drawn exactly when neither the spinner nor the error
    message is, so neither section is ever empty; spinner and error message
    do not exclude each other. *)
Theorem carousel_states c :
  let recommended := render c recommendedSection in
  let new := render c newSolutionsSection in
  (In "div.carousel-container" recommended
   <-> ~ In "div.loading-state" recommended
       /\ ~ In "div.error-state" recommended)
  /\ (In "div.carousel-container" new
      <-> ~ In "div.loading-state" new /\ ~ In "div.error-state" new).
Proof.
  destruct c as [? ? ? ? busy failure busyNew failureNew]. cbv zeta.
  cbn [render recommendedSection newSolutionsSection loading error loadingNew
       newSolutionsError flat_map app].
  split.
  - destruct busy, (truthyText failure); cbn [negb andb app In];
      intuition discriminate.
  - destruct busyNew, (truthyText failureNew); cbn [negb andb app In];
      intuition discriminate.
Qed.

End Drawing.

Lemma failed_search_drawn_witness :
  render failedSearch searchResultsSection
  = ["section.search-results"; "div.section-header"; "div.error-state";
     "div.no-results"].
Proof. apply (failed_search_drawn failedSearch); reflexivity. Defined.

End HomeTemplateFacts.

